(** * Exact rational arithmetic of [rational.mts]

    A shallow embedding of the [Rational] class (normalising constructor,
    negate / add / subtract / multiply, [cmp]) and of the long-division digit
    generator behind [toDecimalPlaces], followed by the properties that the
    specification states about them.

    JSBI big integers are modelled as [Z]: [JSBI.divide] truncates towards
    zero ([Z.quot]) and [JSBI.remainder] takes the sign of the dividend
    ([Z.rem]). *)

From Stdlib Require Import ZArith QArith List String Ascii Bool Lia Znumtheory.
From Equations Require Import Equations.
Import ListNotations.

Local Open Scope string_scope.
Local Open Scope Z_scope.

(** * Part I: the program *)

(** ** Outcomes of a call

    A call either returns, throws one of the two error classes the source
    uses, or (for the recursive and looping functions, which are evaluated
    with a fuel counter) runs out of fuel. *)

Inductive error : Type :=
| RangeError
| TypeError.

Inductive outcome (A : Type) : Type :=
| Ret (a : A)
| Throw (e : error)
| OutOfFuel.

Arguments Ret {A} a.
Arguments Throw {A} e.
Arguments OutOfFuel {A}.

Definition bind {A B : Type} (m : outcome A) (k : A -> outcome B) : outcome B :=
  match m with
  | Ret a => k a
  | Throw e => Throw e
  | OutOfFuel => OutOfFuel
  end.

Notation "x <- m ;; k" := (bind m (fun x => k))
  (at level 61, m at next level, right associativity).

(** ** [gcd]: the Euclidean loop

    [while (b != 0) { t = b; b = a rem b; a = t }  return a]. The recursion
    follows the loop; it is well founded because [|a rem b| < |b|]. *)

Equations? gcd (a b : Z) : Z by wf (Z.abs_nat b) lt :=
  gcd a b with Z.eq_dec b 0 := {
    | left _ => a
    | right _ => gcd b (Z.rem a b) }.
Proof.
  pose proof (Z.rem_bound_abs a b ltac:(assumption)) as Hlt.
  apply Nat2Z.inj_lt. rewrite !Zabs2Nat.id_abs. exact Hlt.
Qed.

(** [JSBI.divide] and [JSBI.remainder] throw a [RangeError] on a zero
    divisor. *)
Definition JSBI_divide (a b : Z) : outcome Z :=
  if b =? 0 then Throw RangeError else Ret (Z.quot a b).

Definition JSBI_remainder (a b : Z) : outcome Z :=
  if b =? 0 then Throw RangeError else Ret (Z.rem a b).

(** ** Big integers as decimal strings *)

Definition digitChar (d : Z) : ascii :=
  match d with
  | 0 => "0" | 1 => "1" | 2 => "2" | 3 => "3" | 4 => "4"
  | 5 => "5" | 6 => "6" | 7 => "7" | 8 => "8" | _ => "9"
  end%char.

(** Decimal digits of a non-negative big integer, most significant first. *)
Equations? digitsOf (z : Z) : string by wf (Z.to_nat z) lt :=
  digitsOf z with Z_lt_dec z 10 := {
    | left _ => String (digitChar z) EmptyString
    | right _ => digitsOf (z / 10) ++ String (digitChar (z mod 10)) EmptyString }.
Proof.
  apply Z2Nat.inj_lt; try lia.
  - apply Z.div_pos; lia.
  - apply Z.div_lt; lia.
Qed.

(** [q.toString()] of a JSBI value. *)
Definition toStringZ (z : Z) : string :=
  if z <? 0 then "-" ++ digitsOf (- z) else digitsOf z.

(** ** The [Rational] class *)

Record Rational : Type := mkRational {
  numerator : Z;
  denominator : Z;
  isNegative : bool
}.

(** [new Rational(p, q)]. *)
Definition construct (p q : Z) : outcome Rational :=
  if q =? 0 then Throw RangeError
  else
    let '(num, den, neg) :=
      if p <? 0 then
        if q <? 0 then (- p, - q, false) else (- p, q, true)
      else if q <? 0 then (p, - q, true)
      else (p, q, false) in
    let g := gcd num den in
    numerator' <- JSBI_divide num g ;;
    denominator' <- JSBI_divide den g ;;
    Ret (mkRational numerator' denominator' neg).

(** [toString()]: [-]numerator/denominator. *)
Definition toString (this : Rational) : string :=
  (if isNegative this then "-" else EmptyString)
  ++ toStringZ (numerator this) ++ "/" ++ toStringZ (denominator this).

(** [negate()]: rebuilt through the constructor, never mutated. *)
Definition negate (this : Rational) : outcome Rational :=
  if isNegative this then construct (numerator this) (denominator this)
  else construct (numerator this * -1) (denominator this).

(** [_add] and [_subtract] call each other through [negate]; the fuel bounds
    the depth of that mutual recursion. *)
Fixpoint _add (fuel : nat) (x y : Rational) {struct fuel} : outcome Rational :=
  match fuel with
  | O => OutOfFuel
  | S fuel' =>
      if isNegative x then
        nx <- negate x ;; _subtract fuel' y nx
      else if isNegative y then
        ny <- negate y ;; _subtract fuel' x ny
      else
        construct
          (numerator x * denominator y + numerator y * denominator x)
          (denominator x * denominator y)
  end
with _subtract (fuel : nat) (x y : Rational) {struct fuel} : outcome Rational :=
  match fuel with
  | O => OutOfFuel
  | S fuel' =>
      if isNegative x then
        nx <- negate x ;; s <- _add fuel' nx y ;; negate s
      else
        construct
          (numerator x * denominator y - numerator y * denominator x)
          (denominator x * denominator y)
  end.

Definition _multiply (x y : Rational) : outcome Rational :=
  construct (numerator x * numerator y) (denominator x * denominator y).

(** [Array.prototype.reduce] with an initial value, for a callback that may
    throw. *)
Fixpoint reduce {A : Type} (f : A -> A -> outcome A) (theArgs : list A) (acc : A)
  : outcome A :=
  match theArgs with
  | [] => Ret acc
  | cur :: rest => acc' <- f acc cur ;; reduce f rest acc'
  end.

(** The public variadic operators. *)
Definition add (fuel : nat) (theArgs : list Rational) : outcome Rational :=
  init <- construct 0 1 ;; reduce (_add fuel) theArgs init.

Definition subtract (fuel : nat) (x : Rational) (theArgs : list Rational)
  : outcome Rational :=
  reduce (_subtract fuel) theArgs x.

Definition multiply (theArgs : list Rational) : outcome Rational :=
  init <- construct 1 1 ;; reduce _multiply theArgs init.

(** [this.cmp(x)]. *)
Definition cmp (this x : Rational) : Z :=
  let a := ((if isNegative this then -1 else 1) * numerator this) * denominator x in
  let b := ((if isNegative x then -1 else 1) * numerator x) * denominator this in
  if a <? b then -1
  else if b <? a then 1
  else 0.

(** ** Characters, digits and the significant-digit counter *)

Definition charCode (c : ascii) : Z := Z.of_N (N_of_ascii c).

Definition isDigit (c : ascii) : bool :=
  (48 <=? charCode c) && (charCode c <=? 57).

Definition isNonzeroDigit (c : ascii) : bool :=
  (49 <=? charCode c) && (charCode c <=? 57).

(** What the generator yields: JavaScript numbers, normally a [Digit]
    ([-1] for the decimal point, [0..9] otherwise); [parseInt] of a character
    that is no digit is [NaN]. *)
Inductive Digit : Type :=
| Num (z : Z)
| NaN.

(** [parseInt(qString.charAt(i))] on a one-character string. *)
Definition parseInt (c : ascii) : Digit :=
  if isDigit c then Num (charCode c - 48) else NaN.

Fixpoint chars (s : string) : list ascii :=
  match s with
  | EmptyString => []
  | String c s' => c :: chars s'
  end.

(** The template literal [`${v}`]. *)
Definition showDigit (v : Digit) : string :=
  match v with
  | Num z => toStringZ z
  | NaN => "NaN"
  end.

(** [result.match(/[.]$/)]: does the string end with a point? *)
Fixpoint endsWithDot (s : string) : bool :=
  match s with
  | EmptyString => false
  | String c EmptyString => Ascii.eqb c "."
  | String _ s' => endsWithDot s'
  end.

(** [result.replace(".", EmptyString)]: drops the first point, if any. *)
Fixpoint replaceFirstDot (s : string) : string :=
  match s with
  | EmptyString => EmptyString
  | String c s' => if Ascii.eqb c "." then s' else String c (replaceFirstDot s')
  end.

(** Modelled from the spec: [countSignificantDigits] is imported from
    [common.mjs], which is not part of the sources at hand. The specification
    describes it as the significant-digit counter: "given a digit string with
    any decimal-point marker stripped, returns the count of digits excluding
    leading zeros", a significant digit being "a digit counted toward a
    precision budget, excluding leading zeros before the first nonzero
    digit". Characters that are no digits (the generator passes strings with
    an inner point) are not counted. *)
Fixpoint countDigits (s : string) : Z :=
  match s with
  | EmptyString => 0
  | String c s' => (if isDigit c then 1 else 0) + countDigits s'
  end.

Fixpoint countSignificantDigits (s : string) : Z :=
  match s with
  | EmptyString => 0
  | String c s' =>
      if isNonzeroDigit c then countDigits s else countSignificantDigits s'
  end.

(** ** The digit generator [nextDigitForDivision] *)

(** A [while] loop whose body may throw, run with a fuel counter. *)
Fixpoint while {State : Type} (fuel : nat) (cond : State -> bool)
  (body : State -> outcome State) (s : State) {struct fuel} : outcome State :=
  match fuel with
  | O => OutOfFuel
  | S fuel' =>
      if cond s then s' <- body s ;; while fuel' cond body s' else Ret s
  end.

(** The generator's local variables, together with the values yielded so
    far. *)
Record GenState : Type := mkGen {
  result : string;
  emittedDecimalPoint : bool;
  done : bool;
  x : Z;
  yielded : list Digit
}.

Definition loopCond (n : Z) (st : GenState) : bool :=
  negb (done st) &&
  (countSignificantDigits
     (if endsWithDot (result st) then replaceFirstDot (result st)
      else result st) <? n).

Definition loopBody (y : Z) (st : GenState) : outcome GenState :=
  if x st =? 0 then
    Ret (mkGen (result st) (emittedDecimalPoint st) true (x st) (yielded st))
  else if x st <? y then
    if emittedDecimalPoint st then
      let x1 := x st * 10 in
      if x1 <? y then
        Ret (mkGen (result st ++ "0") true (done st) x1 (yielded st ++ [Num 0]))
      else
        Ret (mkGen (result st) true (done st) x1 (yielded st))
    else
      let result1 :=
        (match result st with EmptyString => "0" | _ => result st end) ++ "." in
      let x1 := x st * 10 in
      if x1 <? y then
        Ret (mkGen (result1 ++ "0") true (done st) x1
               (yielded st ++ [Num (-1); Num 0]))
      else
        Ret (mkGen result1 true (done st) x1 (yielded st ++ [Num (-1)]))
  else
    q <- JSBI_divide (x st) y ;;
    x1 <- JSBI_remainder (x st) y ;;
    let qString := toStringZ q in
    Ret (mkGen (result st ++ qString) (emittedDecimalPoint st) (done st) x1
           (yielded st ++ map parseInt (chars qString))).

Definition nextDigitForDivision (fuel : nat) (x0 y n : Z) : outcome (list Digit) :=
  st <- while fuel (loopCond n) (loopBody y)
          (mkGen EmptyString false false x0 []) ;;
  Ret (yielded st).

(** ** [toDecimalPlaces] *)

(** The argument [n] is a JavaScript number: either integer-valued or not
    (a fraction, [NaN] or an infinity). *)
Inductive number : Type :=
| Integer (z : Z)
| NonInteger.

(** One round of the consumer loop. *)
Definition renderStep (result0 : string) (v : Digit) : string :=
  match v with
  | Num (-1) =>
      (match result0 with EmptyString => "0" | _ => result0 end) ++ "."
  | _ => result0 ++ showDigit v
  end.

Definition render (digits : list Digit) : string :=
  fold_left renderStep digits EmptyString.

Definition toDecimalPlaces (fuel : nat) (this : Rational) (n : number)
  : outcome string :=
  match n with
  | NonInteger => Throw TypeError
  | Integer n =>
      if n <? 0 then Throw RangeError
      else if numerator this =? 0 then Ret "0"
      else
        digits <- nextDigitForDivision fuel (numerator this) (denominator this) n ;;
        Ret ((if isNegative this then "-" else EmptyString) ++ render digits)
  end.

(** * Part II: notions used to state the properties *)

(** ** Mathematical reading of a [Rational]

    [signedNum r / denominator r] is the fraction a triple stands for. *)

Definition signedNum (r : Rational) : Z :=
  if isNegative r then - numerator r else numerator r.

(** The rational number a triple stands for, and its absolute value. *)
Definition value (r : Rational) : Q :=
  Qmake (signedNum r) (Z.to_pos (denominator r)).

Definition magnitude (r : Rational) : Q :=
  Qmake (numerator r) (Z.to_pos (denominator r)).

(** The class invariant: what every constructed triple satisfies. *)
Definition valid (r : Rational) : Prop :=
  0 <= numerator r /\ 0 < denominator r /\ Z.gcd (numerator r) (denominator r) = 1.

(** The single canonical zero additionally carries no sign. *)
Definition canonical (r : Rational) : Prop :=
  valid r /\ (numerator r = 0 -> isNegative r = false).

(** ** The exact decimal expansion *)

(** All characters of a string are decimal digits. *)
Fixpoint allDigits (s : string) : bool :=
  match s with
  | EmptyString => true
  | String c s' => isDigit c && allDigits s'
  end.

Definition remainderAt (x0 y : Z) (k : nat) : Z := (10 ^ Z.of_nat k * x0) mod y.

(** The [i]-th digit after the point of [x0 / y]. *)
Definition fracDigit (x0 y : Z) (i : nat) : Z := (10 ^ Z.of_nat i * x0 / y) mod 10.

Fixpoint fracDigits (x0 y : Z) (k : nat) : string :=
  match k with
  | O => EmptyString
  | S k' => fracDigits x0 y k' ++ String (digitChar (fracDigit x0 y (S k'))) EmptyString
  end.

(** Integer part, point, and the first [k] fractional digits. *)
Definition expansion (x0 y : Z) (k : nat) : string :=
  toStringZ (x0 / y) ++ "." ++ fracDigits x0 y k.

(** Number of digits of the integer part of [x0 / y] ([0] when the value is
    below one). *)
Definition integerDigits (x0 y : Z) : Z :=
  if x0 <? y then 0 else Z.of_nat (String.length (toStringZ (x0 / y))).

(** The sign that [toDecimalPlaces] prints: none for a zero numerator. *)
Definition signPrefix (r : Rational) : string :=
  if numerator r =? 0 then EmptyString
  else if isNegative r then "-" else EmptyString.

(** ** Invariant and measure of the generator's loop *)

Section LoopInvariant.

Variables x0 y n : Z.

(** Where the loop stands after [k] fractional digits: nothing emitted yet;
    integer part emitted; point emitted and [x] the current remainder; point
    emitted and [x] already scaled for the next quotient digit. *)
Definition shape (st : GenState) (k : nat) : Prop :=
  (emittedDecimalPoint st = false /\ result st = EmptyString /\
   x st = x0 /\ k = O) \/
  (emittedDecimalPoint st = false /\ result st = toStringZ (x0 / y) /\
   x st = x0 mod y /\ y <= x0 /\ k = O) \/
  (emittedDecimalPoint st = true /\ result st = expansion x0 y k /\
   (x st = remainderAt x0 y k \/
    (x st = 10 * remainderAt x0 y k /\ y <= x st))).

Definition Inv (st : GenState) : Prop :=
  0 <= x st /\
  render (yielded st) = result st /\
  countSignificantDigits (result st) <= Z.max n (integerDigits x0 y) /\
  (done st = true -> x st = 0) /\
  exists k, shape st k.

Definition loopMeasure (st : GenState) : nat :=
  Z.to_nat
    ((if done st then 0 else 1)
     + Z.max 0 (n - countSignificantDigits (result st)) * (y + 2)
     + (if x st <? y then y - x st + 1 else 0)).

Definition initial : GenState := mkGen EmptyString false false x0 [].

(** A number of iterations that always suffices. *)
Definition enoughFuel : nat :=
  S (Z.to_nat (1 + Z.max 0 n * (y + 2) + (y + 1))).

End LoopInvariant.

(** ** Sums and products of operand lists *)

Definition sumValues (l : list Rational) : Q :=
  fold_right (fun r acc => (value r + acc)%Q) 0%Q l.

Definition productMagnitudes (l : list Rational) : Q :=
  fold_right (fun r acc => (magnitude r * acc)%Q) 1%Q l.

(** ** Reading a digit string back *)

Fixpoint numberOfAcc (s : string) (acc : Z) : Z :=
  match s with
  | EmptyString => acc
  | String c s' => numberOfAcc s' (acc * 10 + (charCode c - 48))
  end.

Definition numberOf (s : string) : Z := numberOfAcc s 0.

(** ** What the loop keeps besides [Inv] once a digit is due

    No stop with nothing printed; after the point, either [x] is scaled for
    a quotient step that the budget still allows, or the text ends in a
    digit. *)
Definition settled (y n : Z) (st : GenState) : Prop :=
  (result st = EmptyString -> done st = false) /\
  (emittedDecimalPoint st = true -> y <= x st ->
   done st = false /\ countSignificantDigits (result st) < n) /\
  (emittedDecimalPoint st = true -> x st < y ->
   endsWithDot (result st) = false).

(** ** The exact cut of the expansion

    What the loop keeps about the digits printed after the point: with [k]
    of them printed and [x] the remainder, the budget was still open and the
    division still inexact one digit earlier; with [x] scaled for the next
    quotient digit, they still are. *)
Definition tracked (x0 y n : Z) (st : GenState) : Prop :=
  (result st = EmptyString -> done st = false) /\
  (emittedDecimalPoint st = true ->
   exists k,
     result st = expansion x0 y k /\
     ((x st = remainderAt x0 y k /\ x st < y /\
       exists k', k = S k' /\
         countSignificantDigits (expansion x0 y k') < n /\
         remainderAt x0 y k' <> 0) \/
      (x st = 10 * remainderAt x0 y k /\ y <= x st /\ done st = false /\
       countSignificantDigits (expansion x0 y k) < n /\
       remainderAt x0 y k <> 0))).

(** The digits printed for [x0 / y] under a budget of [n >= 1]: the integer
    part in full when it meets the budget or the division is exact there;
    otherwise the expansion up to the first fractional digit at which the
    budget is met or the remainder is zero. *)
Definition truncation (x0 y n : Z) (body : string) : Prop :=
  (y <= x0 /\ body = toStringZ (x0 / y) /\
   (n <= countSignificantDigits body \/ remainderAt x0 y 0 = 0)) \/
  (exists k,
     body = expansion x0 y (S k) /\
     countSignificantDigits (expansion x0 y k) < n /\
     remainderAt x0 y k <> 0 /\
     (n <= countSignificantDigits body \/ remainderAt x0 y (S k) = 0)).

(** * Part III: properties *)

(** ** The Euclidean loop *)

Lemma gcd_loop_eq (a b : Z) :
  gcd a b = if b =? 0 then a else gcd b (Z.rem a b).
Proof.
  funelim (gcd a b).
  - subst. reflexivity.
  - destruct (Z.eqb_spec b 0) as [E | _]; [contradiction | reflexivity].
Qed.

Lemma gcd_nonneg_spec (a b : Z) : 0 <= a -> 0 <= b -> gcd a b = Z.gcd a b.
Proof.
  funelim (gcd a b); intros Ha Hb.
  - subst. rewrite Z.gcd_0_r. symmetry. apply Z.abs_eq. exact Ha.
  - assert (Hpos : 0 < b) by lia.
    rewrite Z.rem_mod_nonneg in * by lia.
    pose proof (Z.mod_pos_bound a b Hpos) as Hm.
    match goal with
    | IH : 0 <= b -> _ -> gcd b _ = Z.gcd b _ |- _ => rewrite IH by lia
    end.
    rewrite (Z.gcd_comm a b), (Z.gcd_comm b (a mod b)). apply Z.gcd_mod. lia.
Qed.

(** What the constructor's reduction step does on magnitudes. *)
Lemma reduce_magnitudes (num den : Z) :
  0 <= num -> 0 < den ->
  let g := gcd num den in
  0 < g /\
  JSBI_divide num g = Ret (num / g) /\
  JSBI_divide den g = Ret (den / g) /\
  0 <= num / g /\ 0 < den / g /\
  Z.gcd (num / g) (den / g) = 1 /\
  (num / g) * den = num * (den / g).
Proof.
  intros Hn Hd g. subst g.
  rewrite gcd_nonneg_spec by lia.
  set (g := Z.gcd num den).
  assert (Hg0 : 0 <= g) by apply Z.gcd_nonneg.
  assert (Hgne : g <> 0).
  { intro E. apply Z.gcd_eq_0 in E. lia. }
  assert (Hgpos : 0 < g) by lia.
  destruct (Z.gcd_divide_l num den) as [u Hu].
  destruct (Z.gcd_divide_r num den) as [v Hv].
  fold g in Hu, Hv.
  assert (Enum : num / g = u) by (rewrite Hu; apply Z.div_mul; exact Hgne).
  assert (Eden : den / g = v) by (rewrite Hv; apply Z.div_mul; exact Hgne).
  unfold JSBI_divide.
  destruct (Z.eqb_spec g 0) as [E | _]; [contradiction |].
  rewrite !Z.quot_div_nonneg by lia.
  repeat split; try reflexivity; try nia.
  apply Z.gcd_div_gcd; [exact Hgne | reflexivity].
Qed.

(** The result of [construct] in terms of [|p|], [|q|] and the two signs. *)
Lemma construct_spec (p q : Z) :
  q <> 0 ->
  exists r,
    construct p q = Ret r /\
    valid r /\
    isNegative r = xorb (p <? 0) (q <? 0) /\
    numerator r * Z.abs q = Z.abs p * denominator r.
Proof.
  intro Hq. unfold construct.
  destruct (Z.eqb_spec q 0) as [E | _]; [contradiction |].
  destruct (Z.ltb_spec p 0) as [Hp | Hp]; destruct (Z.ltb_spec q 0) as [Hq' | Hq'];
    cbv zeta beta iota;
    match goal with
    | |- context [gcd ?a ?b] =>
        destruct (reduce_magnitudes a b ltac:(lia) ltac:(lia))
          as (Hg & E1 & E2 & H1 & H2 & H3 & H4)
    end;
    rewrite E1, E2; cbn [bind];
    eexists; (split; [reflexivity |]);
    unfold valid; cbn [numerator denominator isNegative xorb];
    (repeat split; try assumption; try reflexivity);
    repeat match goal with
      | |- context [Z.abs ?t] =>
          first [rewrite (Z.abs_eq t) by lia | rewrite (Z.abs_neq t) by lia]
      end;
    exact H4.
Qed.

(** ** Strings, digits and the significant-digit counter *)

Lemma append_nil_r (s : string) : s ++ EmptyString = s.
Proof. induction s as [| c s IH]; simpl; [reflexivity | rewrite IH; reflexivity]. Qed.

Lemma append_assoc (s t u : string) : (s ++ t) ++ u = s ++ (t ++ u).
Proof. induction s as [| c s IH]; simpl; [reflexivity | rewrite IH; reflexivity]. Qed.

Lemma length_append (s t : string) :
  String.length (s ++ t) = (String.length s + String.length t)%nat.
Proof. induction s as [| c s IH]; simpl; [reflexivity | rewrite IH; reflexivity]. Qed.

Lemma prefix_append (s t : string) : prefix s (s ++ t) = true.
Proof.
  induction s as [| c s IH]; simpl.
  - destruct t; reflexivity.
  - destruct (ascii_dec c c) as [_ | N]; [exact IH | contradiction].
Qed.

Lemma prefix_nil (s : string) : prefix EmptyString s = true.
Proof. destruct s; reflexivity. Qed.

Lemma digit_cases (d : Z) :
  0 <= d <= 9 ->
  d = 0 \/ d = 1 \/ d = 2 \/ d = 3 \/ d = 4 \/ d = 5 \/ d = 6 \/ d = 7 \/ d = 8 \/ d = 9.
Proof. lia. Qed.

Ltac each_digit d H :=
  destruct (digit_cases d H) as [-> | [-> | [-> | [-> | [-> | [-> | [-> | [-> | [-> | ->]]]]]]]]].

Lemma isDigit_digitChar (d : Z) : 0 <= d <= 9 -> isDigit (digitChar d) = true.
Proof. intro H. each_digit d H; reflexivity. Qed.

Lemma isNonzeroDigit_digitChar (d : Z) :
  0 <= d <= 9 -> isNonzeroDigit (digitChar d) = negb (d =? 0).
Proof. intro H. each_digit d H; reflexivity. Qed.

Lemma parseInt_digitChar (d : Z) : 0 <= d <= 9 -> parseInt (digitChar d) = Num d.
Proof. intro H. each_digit d H; reflexivity. Qed.

Lemma isNonzeroDigit_isDigit (c : ascii) : isNonzeroDigit c = true -> isDigit c = true.
Proof.
  unfold isNonzeroDigit, isDigit. intro H.
  apply andb_true_iff in H. destruct H as [H1 H2].
  apply andb_true_iff. split; [| exact H2].
  apply Z.leb_le in H1. apply Z.leb_le. lia.
Qed.

(** [digitsOf] written as the usual recursive equation. *)
Lemma digitsOf_eq (z : Z) :
  digitsOf z =
  if z <? 10 then String (digitChar z) EmptyString
  else digitsOf (z / 10) ++ String (digitChar (z mod 10)) EmptyString.
Proof.
  funelim (digitsOf z).
  - destruct (Z.ltb_spec z 10); [reflexivity | lia].
  - destruct (Z.ltb_spec z 10); [lia | reflexivity].
Qed.

Lemma digitsOf_digit (d : Z) : d < 10 -> digitsOf d = String (digitChar d) EmptyString.
Proof.
  intro H. rewrite digitsOf_eq. destruct (Z.ltb_spec d 10); [reflexivity | lia].
Qed.

Lemma toStringZ_nonneg (z : Z) : 0 <= z -> toStringZ z = digitsOf z.
Proof.
  intro H. unfold toStringZ. destruct (Z.ltb_spec z 0); [lia | reflexivity].
Qed.

Lemma allDigits_append (s t : string) :
  allDigits (s ++ t) = allDigits s && allDigits t.
Proof.
  induction s as [| c s IH]; simpl; [reflexivity |].
  rewrite IH. apply andb_assoc.
Qed.

Lemma allDigits_digitsOf (z : Z) : 0 <= z -> allDigits (digitsOf z) = true.
Proof.
  funelim (digitsOf z); intro Hz.
  - simpl. rewrite isDigit_digitChar by lia. reflexivity.
  - rewrite allDigits_append.
    match goal with
    | IH : 0 <= z / 10 -> _ |- _ => rewrite IH by (apply Z.div_pos; lia)
    end.
    simpl. rewrite isDigit_digitChar; [reflexivity |].
    pose proof (Z.mod_pos_bound z 10 ltac:(lia)). lia.
Qed.

(** A positive integer prints with a leading nonzero digit. *)
Lemma digitsOf_leading (z : Z) :
  1 <= z -> exists c t, digitsOf z = String c t /\ isNonzeroDigit c = true.
Proof.
  funelim (digitsOf z); intro Hz.
  - exists (digitChar z), EmptyString. split; [reflexivity |].
    rewrite isNonzeroDigit_digitChar by lia.
    destruct (Z.eqb_spec z 0); [lia | reflexivity].
  - match goal with
    | IH : 1 <= z / 10 -> _ |- _ =>
        destruct IH as (c & t & E & Hc);
          [apply Z.div_le_lower_bound; lia |]
    end.
    rewrite E. simpl. eexists _, _. split; [reflexivity | exact Hc].
Qed.

Lemma countDigits_nonneg (s : string) : 0 <= countDigits s.
Proof.
  induction s as [| c s IH]; simpl; [lia |].
  destruct (isDigit c); lia.
Qed.

Lemma countDigits_append (s t : string) :
  countDigits (s ++ t) = countDigits s + countDigits t.
Proof.
  induction s as [| c s IH]; simpl; [reflexivity |].
  rewrite IH. ring.
Qed.

Lemma countDigits_allDigits (s : string) :
  allDigits s = true -> countDigits s = Z.of_nat (String.length s).
Proof.
  induction s as [| c s IH]; [reflexivity |].
  cbn [allDigits countDigits String.length]. intro H.
  apply andb_true_iff in H. destruct H as [Hc Hs].
  rewrite Hc, IH by exact Hs. lia.
Qed.

Lemma csd_bounds (s : string) : 0 <= countSignificantDigits s <= countDigits s.
Proof.
  induction s as [| c s IH]; cbn [countSignificantDigits]; [simpl; lia |].
  destruct (isNonzeroDigit c).
  - pose proof (countDigits_nonneg (String c s)). lia.
  - cbn [countDigits]. destruct (isDigit c); lia.
Qed.

(** Appending never lowers the count, and raises it by at most the number
    of digits appended. *)
Lemma csd_append_bounds (s t : string) :
  countSignificantDigits s <= countSignificantDigits (s ++ t)
  <= countSignificantDigits s + countDigits t.
Proof.
  induction s as [| c s IH]; cbn [append countSignificantDigits].
  - pose proof (csd_bounds t). lia.
  - destruct (isNonzeroDigit c); [| exact IH].
    cbn [countDigits]. rewrite countDigits_append.
    pose proof (countDigits_nonneg t). lia.
Qed.

(** Appending a string that starts with a nonzero digit raises the count. *)
Lemma csd_append_leading (s : string) (c : ascii) (t : string) :
  isNonzeroDigit c = true ->
  countSignificantDigits s + 1 <= countSignificantDigits (s ++ String c t).
Proof.
  intro Hc.
  induction s as [| d s IH]; cbn [append countSignificantDigits].
  - rewrite Hc. cbn [countDigits].
    rewrite (isNonzeroDigit_isDigit c Hc).
    pose proof (countDigits_nonneg t). lia.
  - destruct (isNonzeroDigit d); [| exact IH].
    cbn [countDigits]. rewrite countDigits_append. cbn [countDigits].
    rewrite (isNonzeroDigit_isDigit c Hc).
    pose proof (countDigits_nonneg t). lia.
Qed.

Lemma csd_append_zero (s : string) :
  countSignificantDigits s <= countSignificantDigits (s ++ "0")
  <= countSignificantDigits s + 1.
Proof. exact (csd_append_bounds s "0"). Qed.

Lemma csd_append_dot (s : string) :
  countSignificantDigits (s ++ ".") = countSignificantDigits s.
Proof.
  pose proof (csd_append_bounds s ".") as H.
  change (countDigits ".") with 0 in H. lia.
Qed.

Lemma countDigits_replaceFirstDot (s : string) :
  countDigits (replaceFirstDot s) = countDigits s.
Proof.
  induction s as [| c s IH]; [reflexivity |].
  cbn [replaceFirstDot]. destruct (Ascii.eqb_spec c "."%char) as [-> | _].
  - reflexivity.
  - cbn [countDigits]. rewrite IH. reflexivity.
Qed.

(** The point is never counted, so stripping it changes nothing. *)
Lemma csd_replaceFirstDot (s : string) :
  countSignificantDigits (replaceFirstDot s) = countSignificantDigits s.
Proof.
  induction s as [| c s IH]; [reflexivity |].
  cbn [replaceFirstDot]. destruct (Ascii.eqb_spec c "."%char) as [-> | _].
  - reflexivity.
  - cbn [countSignificantDigits]. destruct (isNonzeroDigit c).
    + cbn [countDigits]. rewrite countDigits_replaceFirstDot. reflexivity.
    + exact IH.
Qed.

Lemma csd_stripped (s : string) :
  countSignificantDigits (if endsWithDot s then replaceFirstDot s else s)
  = countSignificantDigits s.
Proof. destruct (endsWithDot s); [apply csd_replaceFirstDot | reflexivity]. Qed.

(** ** Long division *)

(** One step of long division: the next digit is [10 r / y] and the next
    remainder [10 r mod y], where [r] is the current remainder. *)
Lemma long_division_step (x0 y : Z) (k : nat) :
  0 <= x0 -> 0 < y ->
  fracDigit x0 y (S k) = (10 * remainderAt x0 y k) / y /\
  remainderAt x0 y (S k) = (10 * remainderAt x0 y k) mod y /\
  0 <= (10 * remainderAt x0 y k) / y <= 9.
Proof.
  intros Hx Hy. unfold fracDigit, remainderAt.
  rewrite Nat2Z.inj_succ, Z.pow_succ_r by lia.
  set (N := 10 ^ Z.of_nat k * x0).
  assert (HN : 0 <= N) by (subst N; apply Z.mul_nonneg_nonneg; [apply Z.pow_nonneg |]; lia).
  pose proof (Z.div_mod N y ltac:(lia)) as Hdm.
  pose proof (Z.mod_pos_bound N y Hy) as Hr.
  set (r := N mod y) in *. set (Q := N / y) in *.
  assert (E : 10 * 10 ^ Z.of_nat k * x0 = (10 * Q) * y + 10 * r).
  { fold N. replace (10 * 10 ^ Z.of_nat k * x0) with (10 * N) by (subst N; ring). lia. }
  rewrite E.
  assert (Hd : 0 <= 10 * r / y <= 9).
  { split.
    - apply Z.div_pos; lia.
    - assert (10 * r / y < 10) by (apply Z.div_lt_upper_bound; lia). lia. }
  repeat split; try lia.
  - rewrite Z.div_add_l by lia.
    rewrite Z.add_comm, (Z.mul_comm 10 Q), Z.mod_add by lia.
    apply Z.mod_small. lia.
  - rewrite Z.add_comm, Z.mod_add by lia. reflexivity.
Qed.

Lemma remainderAt_0 (x0 y : Z) : remainderAt x0 y 0 = x0 mod y.
Proof. unfold remainderAt. change (10 ^ Z.of_nat 0) with 1. rewrite Z.mul_1_l. reflexivity. Qed.

Lemma remainderAt_bound (x0 y : Z) (k : nat) : 0 < y -> 0 <= remainderAt x0 y k < y.
Proof. intro Hy. apply Z.mod_pos_bound. exact Hy. Qed.

Lemma expansion_succ (x0 y : Z) (k : nat) :
  expansion x0 y (S k)
  = expansion x0 y k ++ String (digitChar (fracDigit x0 y (S k))) EmptyString.
Proof.
  unfold expansion. cbn [fracDigits]. rewrite !append_assoc. reflexivity.
Qed.

(** ** Rendering the yielded digits *)

Lemma isDigit_inv (c : ascii) :
  isDigit c = true -> exists d, 0 <= d <= 9 /\ c = digitChar d.
Proof.
  intro H. exists (charCode c - 48).
  destruct c as [[|] [|] [|] [|] [|] [|] [|] [|]];
    try discriminate H; (split; [vm_compute; split; discriminate | reflexivity]).
Qed.

Lemma renderStep_digit (acc : string) (d : Z) :
  0 <= d <= 9 ->
  renderStep acc (parseInt (digitChar d)) = acc ++ String (digitChar d) EmptyString.
Proof.
  intro H. rewrite parseInt_digitChar by exact H.
  replace (renderStep acc (Num d)) with (acc ++ showDigit (Num d))
    by (each_digit d H; reflexivity).
  cbn [showDigit]. rewrite toStringZ_nonneg, digitsOf_digit by lia. reflexivity.
Qed.

Lemma fold_renderStep_digits (s acc : string) :
  allDigits s = true ->
  fold_left renderStep (map parseInt (chars s)) acc = acc ++ s.
Proof.
  revert acc. induction s as [| c s IH]; intros acc H.
  - simpl. rewrite append_nil_r. reflexivity.
  - cbn [allDigits] in H. apply andb_true_iff in H. destruct H as [Hc Hs].
    destruct (isDigit_inv c Hc) as (d & Hd & ->).
    cbn [chars map fold_left]. rewrite renderStep_digit by exact Hd.
    rewrite IH by exact Hs. rewrite append_assoc. reflexivity.
Qed.

Lemma render_app (ys zs : list Digit) :
  render (ys ++ zs) = fold_left renderStep zs (render ys).
Proof. unfold render. apply fold_left_app. Qed.

Lemma digitsOf_nonempty (z : Z) : exists c t, digitsOf z = String c t.
Proof.
  funelim (digitsOf z).
  - eexists _, _. reflexivity.
  - destruct H as (c & t & E). rewrite E. simpl. eexists _, _. reflexivity.
Qed.

(** ** The loop of [nextDigitForDivision] *)

Section LongDivision.

Variables x0 y n : Z.

Hypothesis Hx0 : 0 <= x0.
Hypothesis Hy : 0 < y.

Ltac inv_split :=
  unfold Inv; cbn [result emittedDecimalPoint done x yielded];
  split; [| split; [| split; [| split]]].

Ltac at_shape k :=
  exists k; unfold shape; cbn [result emittedDecimalPoint done x yielded].

Ltac measure_lt :=
  unfold loopMeasure; cbn [result done x];
  apply Z2Nat.inj_lt;
  repeat match goal with
    | |- context [?a <? ?b] => destruct (Z.ltb_spec a b)
    end;
  nia.

Lemma loop_step (st : GenState) :
  Inv x0 y n st -> loopCond n st = true ->
  exists st',
    loopBody y st = Ret st' /\ Inv x0 y n st' /\ (loopMeasure y n st' < loopMeasure y n st)%nat.
Proof.
  intros (Hx & Hren & Hcnt & Hdone & k & Hsh) Hc.
  unfold loopCond in Hc. apply andb_true_iff in Hc. destruct Hc as [Hnd Hlt].
  rewrite csd_stripped in Hlt. apply Z.ltb_lt in Hlt. apply negb_true_iff in Hnd.
  destruct st as [res em dn xx ys]. unfold shape in Hsh.
  cbn [result emittedDecimalPoint done x yielded] in *. subst dn.
  unfold loopBody. cbn [result emittedDecimalPoint done x yielded].
  pose proof (csd_bounds res) as Hres.
  destruct (Z.eqb_spec xx 0) as [Ex | Nx].
  - (* the division is exact *)
    eexists. split; [reflexivity |]. split.
    + unfold Inv. cbn [result emittedDecimalPoint done x yielded].
      split; [| split; [| split; [| split]]]; try assumption.
      * intros _. exact Ex.
      * exists k. exact Hsh.
    + unfold loopMeasure. cbn [result done x].
      apply Z2Nat.inj_lt; destruct (Z.ltb_spec xx y); nia.
  - destruct (Z.ltb_spec xx y) as [Hlty | Hgey].
    + destruct em.
      * (* scaling after the point *)
        destruct Hsh as [(F & _) | [(F & _) | (_ & Eres & [Er | [_ Hge]])]];
          try discriminate F; [| lia].
        destruct (long_division_step x0 y k Hx0 Hy) as (Ed & Enext & _).
        rewrite <- Er in Ed, Enext.
        pose proof (csd_append_zero res) as Happ.
        destruct (Z.ltb_spec (xx * 10) y) as [Hsmall | Hbig];
          (eexists; split; [reflexivity |]); split.
        -- inv_split; [lia | | lia | intro F; discriminate F |].
           ++ rewrite render_app, Hren. reflexivity.
           ++ at_shape (S k). right. right. split; [reflexivity |]. split.
              ** rewrite expansion_succ, Ed, <- Eres.
                 rewrite Z.div_small by lia. reflexivity.
              ** left. rewrite Enext. rewrite Z.mod_small by lia. ring.
        -- measure_lt.
        -- inv_split; [lia | assumption | lia | intro F; discriminate F |].
           at_shape k. right. right. repeat split; try assumption.
           right. split; [rewrite <- Er; ring | lia].
        -- measure_lt.
      * (* emitting the point *)
        set (res1 := (match res with EmptyString => "0" | _ => res end) ++ ".").
        assert (Hfirst : res1 = expansion x0 y 0 /\ xx = remainderAt x0 y 0 /\
                         countSignificantDigits res1 = countSignificantDigits res).
        { rewrite remainderAt_0. unfold expansion. cbn [fracDigits append].
          destruct Hsh as [(_ & -> & -> & _) | [(_ & -> & -> & _ & _) | (F & _)]];
            try discriminate F; subst res1.
          - rewrite Z.div_small, Z.mod_small by lia.
            rewrite toStringZ_nonneg, digitsOf_digit by lia. repeat split.
          - pose proof (Z.div_pos x0 y Hx0 Hy) as Hq.
            rewrite toStringZ_nonneg by exact Hq.
            destruct (digitsOf_nonempty (x0 / y)) as (c & t & ->).
            repeat split. apply csd_append_dot. }
        destruct Hfirst as (Eres & Er & Ecsd).
        destruct (long_division_step x0 y 0 Hx0 Hy) as (Ed & Enext & _).
        rewrite <- Er in Ed, Enext.
        pose proof (csd_append_zero res1) as Happ.
        destruct (Z.ltb_spec (xx * 10) y) as [Hsmall | Hbig];
          (eexists; split; [reflexivity |]); split.
        -- inv_split; [lia | | lia | intro F; discriminate F |].
           ++ rewrite render_app, Hren. reflexivity.
           ++ at_shape 1%nat. right. right. split; [reflexivity |]. split.
              ** rewrite expansion_succ, Ed, <- Eres.
                 rewrite Z.div_small by lia. reflexivity.
              ** left. rewrite Enext. rewrite Z.mod_small by lia. ring.
        -- measure_lt.
        -- inv_split; [lia | | lia | intro F; discriminate F |].
           ++ rewrite render_app, Hren. reflexivity.
           ++ at_shape 0%nat. right. right. repeat split; try assumption.
              right. split; [rewrite <- Er; ring | lia].
        -- measure_lt.
    + (* a quotient step *)
      unfold JSBI_divide, JSBI_remainder.
      destruct (Z.eqb_spec y 0) as [F | _]; [lia |]. cbn [bind].
      rewrite Z.quot_div_nonneg, Z.rem_mod_nonneg by lia.
      assert (Hq : 1 <= xx / y) by (pose proof (Z.div_str_pos xx y); lia).
      pose proof (Z.mod_pos_bound xx y Hy) as Hmod.
      rewrite toStringZ_nonneg by lia.
      pose proof (allDigits_digitsOf (xx / y) ltac:(lia)) as Hall.
      destruct (digitsOf_leading (xx / y) Hq) as (c & t & Eq & Hc).
      pose proof (csd_append_leading res c t Hc) as Hup. rewrite <- Eq in Hup.
      assert (Hrender : render (ys ++ map parseInt (chars (digitsOf (xx / y))))
                        = res ++ digitsOf (xx / y)).
      { rewrite render_app, Hren. apply fold_renderStep_digits. exact Hall. }
      eexists. split; [reflexivity |]. split; [| measure_lt].
      destruct Hsh as [(Eem & -> & -> & _) | [(_ & _ & -> & _) | (Eem & Eres & [Er | [Er Hge]])]].
      * (* the integer part *)
        inv_split; [lia | exact Hrender | | intro F; discriminate F |].
        -- cbn [append]. unfold integerDigits.
           destruct (Z.ltb_spec x0 y); [lia |].
           rewrite toStringZ_nonneg by lia.
           rewrite Eq. cbn [countSignificantDigits]. rewrite Hc. rewrite <- Eq.
           rewrite countDigits_allDigits by exact Hall. lia.
        -- at_shape 0%nat. right. left. rewrite toStringZ_nonneg by lia.
           repeat split; try assumption; try lia.
      * pose proof (Z.mod_pos_bound x0 y Hy). lia.
      * pose proof (remainderAt_bound x0 y k Hy). lia.
      * (* the next fractional digit *)
        destruct (long_division_step x0 y k Hx0 Hy) as (Ed & Enext & Hd).
        rewrite <- Er in Ed, Enext, Hd.
        assert (Edig : digitsOf (xx / y) = String (digitChar (xx / y)) EmptyString)
          by (apply digitsOf_digit; lia).
        inv_split; [lia | exact Hrender | | intro F; discriminate F |].
        -- pose proof (csd_append_bounds res (digitsOf (xx / y))) as Hb.
           rewrite countDigits_allDigits in Hb by exact Hall.
           rewrite Edig in Hb at 3. cbn [String.length] in Hb. lia.
        -- at_shape (S k). right. right. split; [exact Eem |]. split.
           ++ rewrite expansion_succ, Ed, <- Eres, Edig. reflexivity.
           ++ left. symmetry. exact Enext.
Qed.

(** Every run of the loop from a state satisfying the invariant stops within
    [loopMeasure] iterations, in a state that satisfies the invariant and
    fails the loop test. *)
Lemma loop_terminates (fuel : nat) (st : GenState) :
  Inv x0 y n st -> (loopMeasure y n st < fuel)%nat ->
  exists st',
    while fuel (loopCond n) (loopBody y) st = Ret st' /\
    Inv x0 y n st' /\ loopCond n st' = false.
Proof.
  revert st. induction fuel as [| fuel IH]; intros st HI Hm; [lia |].
  cbn [while]. destruct (loopCond n st) eqn:Hc.
  - destruct (loop_step st HI Hc) as (st1 & E1 & HI1 & Hlt).
    rewrite E1. cbn [bind]. apply IH; [exact HI1 | lia].
  - exists st. auto.
Qed.

Lemma integerDigits_nonneg : 0 <= integerDigits x0 y.
Proof. unfold integerDigits. destruct (x0 <? y); lia. Qed.

Lemma Inv_initial : Inv x0 y n (initial x0).
Proof.
  unfold initial. inv_split.
  - exact Hx0.
  - reflexivity.
  - cbn [countSignificantDigits]. pose proof integerDigits_nonneg. lia.
  - intro F. discriminate F.
  - at_shape 0%nat. left. repeat split.
Qed.

Lemma generator_run (fuel : nat) :
  (enoughFuel y n <= fuel)%nat ->
  exists st,
    while fuel (loopCond n) (loopBody y) (initial x0) = Ret st /\
    Inv x0 y n st /\ loopCond n st = false.
Proof.
  intro Hf. apply loop_terminates; [exact Inv_initial |].
  unfold enoughFuel in Hf. unfold loopMeasure, initial.
  cbn [result emittedDecimalPoint done x yielded countSignificantDigits].
  rewrite Z.sub_0_r.
  destruct (Z.ltb_spec x0 y); lia.
Qed.

(** What is known of the state in which the loop stops. *)
Lemma final_state (st : GenState) :
  Inv x0 y n st -> loopCond n st = false ->
  render (yielded st) = result st /\
  countSignificantDigits (result st) <= Z.max n (integerDigits x0 y) /\
  exists k,
    (result st = EmptyString \/ result st = toStringZ (x0 / y) \/
     result st = expansion x0 y k) /\
    (n <= countSignificantDigits (result st) \/ remainderAt x0 y k = 0).
Proof.
  intros (Hx & Hren & Hcnt & Hdone & k & Hsh) Hc.
  split; [exact Hren |]. split; [exact Hcnt |].
  exists k. split.
  - destruct Hsh as [(_ & E & _) | [(_ & E & _) | (_ & E & _)]]; auto.
  - unfold loopCond in Hc. rewrite csd_stripped in Hc.
    apply andb_false_iff in Hc. destruct Hc as [Hd | Hn].
    + right. apply negb_false_iff in Hd. specialize (Hdone Hd).
      destruct Hsh as [(_ & _ & E & ->) | [(_ & _ & E & _ & ->) | (_ & _ & [E | [E Hge]])]].
      * rewrite remainderAt_0. rewrite <- E, Hdone. apply Z.mod_0_l. lia.
      * rewrite remainderAt_0. rewrite <- E. exact Hdone.
      * rewrite <- E. exact Hdone.
      * lia.
    + left. apply Z.ltb_ge in Hn. exact Hn.
Qed.

End LongDivision.

(** ** [toDecimalPlaces] *)

Lemma csd_signPrefix (r : Rational) (body : string) :
  countSignificantDigits (signPrefix r ++ body) = countSignificantDigits body.
Proof.
  unfold signPrefix. destruct (numerator r =? 0); [reflexivity |].
  destruct (isNegative r); reflexivity.
Qed.

(** The full account of a call with a valid digit count: it returns, the
    digits are the integer part or an expansion cut after [k] fractional
    digits, the cut comes with the budget met or the division exact, and the
    count stays within the larger of the budget and the integer part. *)
Lemma toDecimalPlaces_spec (fuel : nat) (r : Rational) (n : Z) :
  valid r -> 0 <= n ->
  (enoughFuel (denominator r) n <= fuel)%nat ->
  exists body k,
    toDecimalPlaces fuel r (Integer n) = Ret (signPrefix r ++ body) /\
    (body = EmptyString \/ body = toStringZ (numerator r / denominator r) \/
     body = expansion (numerator r) (denominator r) k) /\
    (n <= countSignificantDigits body \/
     remainderAt (numerator r) (denominator r) k = 0) /\
    countSignificantDigits body
      <= Z.max n (integerDigits (numerator r) (denominator r)).
Proof.
  intros (Hnum & Hden & _) Hn Hf.
  unfold toDecimalPlaces, signPrefix.
  destruct (Z.ltb_spec n 0) as [F | _]; [lia |].
  destruct (Z.eqb_spec (numerator r) 0) as [E0 | N0].
  - exists "0", O. rewrite E0. split; [reflexivity |]. split; [| split].
    + right. left. rewrite Z.div_0_l by lia. reflexivity.
    + right. rewrite remainderAt_0. apply Z.mod_0_l. lia.
    + change (countSignificantDigits "0") with 0.
      pose proof (integerDigits_nonneg 0 (denominator r)). lia.
  - unfold nextDigitForDivision.
    destruct (generator_run (numerator r) (denominator r) n Hnum Hden fuel Hf)
      as (st & Erun & HI & Hc).
    fold (initial (numerator r)). rewrite Erun. cbn [bind].
    destruct (final_state (numerator r) (denominator r) n Hden st HI Hc)
      as (Hren & Hcnt & k & Hshape & Hstop).
    exists (result st), k. rewrite Hren.
    repeat split; assumption.
Qed.

(** ** The comparator *)

Lemma cmp_compare (a b : Rational) :
  cmp a b =
  match signedNum a * denominator b ?= signedNum b * denominator a with
  | Lt => -1
  | Eq => 0
  | Gt => 1
  end.
Proof.
  unfold cmp, signedNum.
  destruct (isNegative a), (isNegative b);
    repeat match goal with
      | |- context [?u <? ?v] => destruct (Z.ltb_spec u v)
      end;
    match goal with
    | |- context [?u ?= ?v] => destruct (Z.compare_spec u v)
    end; try reflexivity; lia.
Qed.

(** [cmp] agrees with the order of the fractions the triples stand for. *)
Lemma cmp_exact (a b : Rational) :
  (cmp a b = -1 <-> signedNum a * denominator b < signedNum b * denominator a) /\
  (cmp a b = 0 <-> signedNum a * denominator b = signedNum b * denominator a) /\
  (cmp a b = 1 <-> signedNum b * denominator a < signedNum a * denominator b).
Proof.
  rewrite cmp_compare.
  destruct (Z.compare_spec (signedNum a * denominator b)
              (signedNum b * denominator a));
    repeat split; intros; try lia; try discriminate.
Qed.

Lemma cmp_range (a b : Rational) : cmp a b = -1 \/ cmp a b = 0 \/ cmp a b = 1.
Proof.
  rewrite cmp_compare.
  destruct (_ ?= _); auto.
Qed.

Lemma cmp_antisym (a b : Rational) : cmp a b = - cmp b a.
Proof.
  rewrite !cmp_compare.
  rewrite (Z.compare_antisym (signedNum a * denominator b)).
  destruct (_ ?= _); reflexivity.
Qed.

Lemma cmp_trans (a b c : Rational) :
  valid a -> valid b -> valid c ->
  cmp a b = -1 -> cmp b c = -1 -> cmp a c = -1.
Proof.
  intros (_ & Ha & _) (_ & Hb & _) (_ & Hc & _) Hab Hbc.
  apply cmp_exact in Hab. apply cmp_exact in Hbc. apply cmp_exact.
  assert (H1 : signedNum a * denominator b * denominator c
               < signedNum b * denominator a * denominator c)
    by (apply Z.mul_lt_mono_pos_r; assumption).
  assert (H2 : signedNum b * denominator c * denominator a
               < signedNum c * denominator b * denominator a)
    by (apply Z.mul_lt_mono_pos_r; assumption).
  apply (Z.mul_lt_mono_pos_r (denominator b)); [assumption | lia].
Qed.

(** A value has one reduced representation. *)
Lemma reduced_unique (n1 d1 n2 d2 : Z) :
  0 < d1 -> 0 < d2 -> Z.gcd n1 d1 = 1 -> Z.gcd n2 d2 = 1 ->
  n1 * d2 = n2 * d1 -> n1 = n2 /\ d1 = d2.
Proof.
  intros H1 H2 G1 G2 E.
  assert (D12 : (d1 | d2)).
  { apply Z.gauss with (m := n1).
    - exists n2. lia.
    - rewrite Z.gcd_comm. exact G1. }
  assert (D21 : (d2 | d1)).
  { apply Z.gauss with (m := n2).
    - exists n1. lia.
    - rewrite Z.gcd_comm. exact G2. }
  assert (Ed : d1 = d2) by (apply Z.divide_antisym_nonneg; lia || assumption).
  split; [| exact Ed]. subst d2. nia.
Qed.

(** On canonical triples [cmp] returns [0] exactly for identical triples. *)
Lemma cmp_eq_canonical (a b : Rational) :
  canonical a -> canonical b -> (cmp a b = 0 <-> a = b).
Proof.
  intros ((Hna & Hda & Hga) & Hza) ((Hnb & Hdb & Hgb) & Hzb).
  split.
  - intro H. apply cmp_exact in H.
    destruct a as [na da sa], b as [nb db sb].
    unfold signedNum in H. cbn [numerator denominator isNegative] in *.
    assert (Hsg : forall (s : bool) (m d : Z),
               Z.gcd m d = 1 -> Z.gcd (if s then - m else m) d = 1).
    { intros [|] m d G; [rewrite Z.gcd_opp_l |]; exact G. }
    destruct (reduced_unique _ da _ db Hda Hdb (Hsg sa na da Hga) (Hsg sb nb db Hgb) H)
      as [En Ed].
    subst db.
    destruct sa, sb; f_equal; lia.
  - intros <-. apply cmp_exact. reflexivity.
Qed.

(** ** The arithmetic operators *)

Ltac resolve_abs H :=
  repeat match type of H with
    | context [Z.abs ?t] =>
        first [rewrite (Z.abs_eq t) in H by lia
              | rewrite (Z.abs_neq t) in H by lia]
    end.

Lemma construct_value (p q : Z) :
  q <> 0 ->
  exists r,
    construct p q = Ret r /\ valid r /\
    signedNum r * q = p * denominator r /\
    isNegative r = xorb (p <? 0) (q <? 0) /\
    (0 < q -> canonical r).
Proof.
  intro Hq. destruct (construct_spec p q Hq) as (r & E & Hv & Hs & Hm).
  exists r. split; [exact E |]. split; [exact Hv |].
  destruct Hv as (Hn & Hd & Hg).
  unfold signedNum, canonical, valid. rewrite Hs.
  destruct (Z.ltb_spec p 0), (Z.ltb_spec q 0); cbn [xorb];
    resolve_abs Hm;
    (split; [lia |]); (split; [reflexivity |]); intro Hpos;
    (split; [auto |]); intro Hz; try reflexivity; nia.
Qed.

(** A pair already in lowest terms is stored as it is. *)
Lemma construct_reduced (p q : Z) :
  0 < q -> Z.gcd p q = 1 ->
  construct p q = Ret (mkRational (Z.abs p) q (p <? 0)).
Proof.
  intros Hq Hg.
  destruct (construct_spec p q ltac:(lia)) as (r & E & (Hn & Hd & Hgr) & Hs & Hm).
  rewrite E. f_equal.
  rewrite (Z.abs_eq q) in Hm by lia.
  destruct (reduced_unique (numerator r) (denominator r) (Z.abs p) q)
    as [En Ed]; try assumption.
  { rewrite Z.gcd_abs_l. exact Hg. }
  destruct r as [nr dr sr]. cbn [numerator denominator isNegative] in *.
  subst. f_equal.
  destruct (Z.ltb_spec q 0); [lia |]. apply xorb_false_r.
Qed.

Lemma negate_spec (a : Rational) :
  valid a ->
  negate a =
  Ret (mkRational (numerator a) (denominator a)
         (negb (isNegative a) && negb (numerator a =? 0))).
Proof.
  intros (Hn & Hd & Hg). unfold negate.
  destruct (isNegative a).
  - rewrite construct_reduced by assumption.
    rewrite Z.abs_eq by lia.
    destruct (Z.ltb_spec (numerator a) 0); [lia | reflexivity].
  - rewrite construct_reduced; [| assumption |].
    + replace (Z.abs (numerator a * -1)) with (numerator a) by lia.
      cbn [negb andb]. f_equal. f_equal.
      destruct (Z.ltb_spec (numerator a * -1) 0), (Z.eqb_spec (numerator a) 0);
        try reflexivity; lia.
    + replace (numerator a * -1) with (- numerator a) by ring.
      rewrite Z.gcd_opp_l. exact Hg.
Qed.

Lemma negate_valid (a : Rational) :
  valid a ->
  exists r, negate a = Ret r /\ canonical r /\
            denominator r = denominator a /\ signedNum r = - signedNum a.
Proof.
  intro Hv. rewrite (negate_spec a Hv). eexists. split; [reflexivity |].
  destruct Hv as (Hn & Hd & Hg).
  unfold canonical, valid, signedNum. cbn [numerator denominator isNegative].
  destruct (isNegative a), (Z.eqb_spec (numerator a) 0); cbn [negb andb];
    repeat split; try assumption; try reflexivity; try lia.
Qed.

(** What [_subtract] computes for a non-negative receiver: the sign of the
    second operand is never consulted. *)
Lemma subtract_nonnegative_receiver (fuel : nat) (a b : Rational) :
  isNegative a = false ->
  _subtract (S fuel) a b =
  construct (numerator a * denominator b - numerator b * denominator a)
            (denominator a * denominator b).
Proof. intro H. cbn [_subtract]. rewrite H. reflexivity. Qed.

(** [_multiply] works on the magnitudes only. *)
Lemma multiply_magnitudes (a b : Rational) :
  valid a -> valid b ->
  exists r,
    _multiply a b = Ret r /\ canonical r /\ isNegative r = false /\
    numerator r * (denominator a * denominator b)
    = (numerator a * numerator b) * denominator r.
Proof.
  intros (Hna & Hda & _) (Hnb & Hdb & _). unfold _multiply.
  destruct (construct_value (numerator a * numerator b)
              (denominator a * denominator b) ltac:(nia))
    as (r & E & Hv & Hval & Hs & Hc).
  exists r. split; [exact E |]. split; [apply Hc; nia |].
  assert (Hneg : isNegative r = false).
  { rewrite Hs.
    destruct (Z.ltb_spec (numerator a * numerator b) 0),
             (Z.ltb_spec (denominator a * denominator b) 0);
      try reflexivity; nia. }
  split; [exact Hneg |].
  unfold signedNum in Hval. rewrite Hneg in Hval. exact Hval.
Qed.

(** [_add] returns the exact sum, for every combination of signs. *)
Lemma add_exact (fuel : nat) (a b : Rational) :
  valid a -> valid b ->
  exists r,
    _add (3 + fuel) a b = Ret r /\ canonical r /\
    signedNum r * (denominator a * denominator b)
    = (signedNum a * denominator b + signedNum b * denominator a) * denominator r.
Proof.
  intros Ha Hb.
  change (3 + fuel)%nat with (S (S (S fuel))).
  pose proof (negate_spec a Ha) as Ena. pose proof (negate_spec b Hb) as Enb.
  destruct a as [na da sa], b as [nb db sb].
  destruct Ha as (Hna & Hda & Hga), Hb as (Hnb & Hdb & Hgb).
  unfold signedNum at 2 3.
  cbn [numerator denominator isNegative] in *.
  destruct sa, sb; cbn [_add _subtract isNegative numerator denominator negb andb] in *;
    rewrite ?Ena, ?Enb; cbn [bind _subtract _add isNegative numerator denominator].
  - (* both negative *)
    rewrite ?Enb. cbn [bind _add isNegative numerator denominator].
    destruct (construct_value (nb * da + na * db) (db * da) ltac:(nia))
      as (r1 & E1 & Hv1 & Hval1 & _ & Hc1).
    rewrite E1. cbn [bind].
    destruct (negate_valid r1 Hv1) as (r & E & Hc & Hd & Hs).
    exists r. split; [exact E |]. split; [exact Hc |].
    rewrite Hs, Hd. nia.
  - (* negative plus non-negative *)
    destruct (construct_value (nb * da - na * db) (db * da) ltac:(nia))
      as (r & E & Hv & Hval & _ & Hc).
    exists r. split; [exact E |]. split; [apply Hc; nia |]. nia.
  - (* non-negative plus negative *)
    destruct (construct_value (na * db - nb * da) (da * db) ltac:(nia))
      as (r & E & Hv & Hval & _ & Hc).
    exists r. split; [exact E |]. split; [apply Hc; nia |]. nia.
  - (* both non-negative *)
    destruct (construct_value (na * db + nb * da) (da * db) ltac:(nia))
      as (r & E & Hv & Hval & _ & Hc).
    exists r. split; [exact E |]. split; [apply Hc; nia |]. nia.
Qed.

(** [_subtract] returns the exact difference whenever the receiver is
    negative or the second operand is not. *)
Lemma subtract_exact (fuel : nat) (a b : Rational) :
  valid a -> valid b ->
  isNegative a = true \/ isNegative b = false ->
  exists r,
    _subtract (3 + fuel) a b = Ret r /\ canonical r /\
    signedNum r * (denominator a * denominator b)
    = (signedNum a * denominator b - signedNum b * denominator a) * denominator r.
Proof.
  intros Ha Hb Hsigns.
  change (3 + fuel)%nat with (S (S (S fuel))).
  pose proof (negate_spec a Ha) as Ena. pose proof (negate_spec b Hb) as Enb.
  destruct a as [na da sa], b as [nb db sb].
  destruct Ha as (Hna & Hda & Hga), Hb as (Hnb & Hdb & Hgb).
  unfold signedNum at 2 3.
  cbn [numerator denominator isNegative] in *.
  destruct sa, sb; cbn [_add _subtract isNegative numerator denominator negb andb] in *;
    rewrite ?Ena, ?Enb; cbn [bind _subtract _add isNegative numerator denominator].
  - (* negative minus negative *)
    rewrite ?Enb. cbn [bind _subtract isNegative numerator denominator].
    destruct (construct_value (na * db - nb * da) (da * db) ltac:(nia))
      as (r1 & E1 & Hv1 & Hval1 & _ & Hc1).
    rewrite E1. cbn [bind].
    destruct (negate_valid r1 Hv1) as (r & E & Hc & Hd & Hs).
    exists r. split; [exact E |]. split; [exact Hc |].
    rewrite Hs, Hd. nia.
  - (* negative minus non-negative *)
    destruct (construct_value (na * db + nb * da) (da * db) ltac:(nia))
      as (r1 & E1 & Hv1 & Hval1 & _ & Hc1).
    rewrite E1. cbn [bind].
    destruct (negate_valid r1 Hv1) as (r & E & Hc & Hd & Hs).
    exists r. split; [exact E |]. split; [exact Hc |].
    rewrite Hs, Hd. nia.
  - destruct Hsigns as [F | F]; discriminate F.
  - (* non-negative minus non-negative *)
    destruct (construct_value (na * db - nb * da) (da * db) ltac:(nia))
      as (r & E & Hv & Hval & _ & Hc).
    exists r. split; [exact E |]. split; [apply Hc; nia |]. nia.
Qed.

(** ** The operators on values *)

Lemma value_cross (a b : Rational) :
  valid a -> valid b ->
  (value a == value b)%Q <->
  signedNum a * denominator b = signedNum b * denominator a.
Proof.
  intros (_ & Ha & _) (_ & Hb & _).
  unfold Qeq, value. cbn [Qnum Qden].
  rewrite !Z2Pos.id by assumption. reflexivity.
Qed.

(** Canonical triples are determined by their value. *)
Lemma canonical_value_inj (a b : Rational) :
  canonical a -> canonical b -> (value a == value b)%Q -> a = b.
Proof.
  intros Ha Hb E.
  apply cmp_eq_canonical; try assumption.
  apply cmp_exact. apply value_cross; [apply Ha | apply Hb | exact E].
Qed.

Lemma add_value (fuel : nat) (a b : Rational) :
  valid a -> valid b ->
  exists r,
    _add (3 + fuel) a b = Ret r /\ canonical r /\
    (value r == value a + value b)%Q.
Proof.
  intros Ha Hb.
  destruct (add_exact fuel a b Ha Hb) as (r & E & Hc & Hval).
  exists r. split; [exact E |]. split; [exact Hc |].
  destruct Ha as (_ & Hda & _), Hb as (_ & Hdb & _), Hc as ((_ & Hdr & _) & _).
  unfold Qeq, Qplus, value. cbn [Qnum Qden].
  rewrite Pos2Z.inj_mul, !Z2Pos.id by assumption. exact Hval.
Qed.

Lemma subtract_value (fuel : nat) (a b : Rational) :
  valid a -> valid b ->
  isNegative a = true \/ isNegative b = false ->
  exists r,
    _subtract (3 + fuel) a b = Ret r /\ canonical r /\
    (value r == value a - value b)%Q.
Proof.
  intros Ha Hb Hs.
  destruct (subtract_exact fuel a b Ha Hb Hs) as (r & E & Hc & Hval).
  exists r. split; [exact E |]. split; [exact Hc |].
  destruct Ha as (_ & Hda & _), Hb as (_ & Hdb & _), Hc as ((_ & Hdr & _) & _).
  unfold Qeq, Qminus, Qplus, Qopp, value. cbn [Qnum Qden].
  rewrite Pos2Z.inj_mul, !Z2Pos.id by assumption. lia.
Qed.

(** For a non-negative receiver [_subtract] subtracts the magnitude of the
    second operand, whatever its sign. *)
Lemma subtract_value_nonnegative_receiver (fuel : nat) (a b : Rational) :
  valid a -> valid b -> isNegative a = false ->
  exists r,
    _subtract (S fuel) a b = Ret r /\ canonical r /\
    (value r == value a - magnitude b)%Q.
Proof.
  intros (Hna & Hda & _) (Hnb & Hdb & _) Hs.
  rewrite subtract_nonnegative_receiver by exact Hs.
  destruct (construct_value
              (numerator a * denominator b - numerator b * denominator a)
              (denominator a * denominator b) ltac:(nia))
    as (r & E & (_ & Hdr & _) & Hval & _ & Hc).
  exists r. split; [exact E |]. split; [apply Hc; nia |].
  assert (Ea : signedNum a = numerator a)
    by (unfold signedNum; rewrite Hs; reflexivity).
  unfold Qeq, Qminus, Qplus, Qopp, value, magnitude. cbn [Qnum Qden].
  rewrite Pos2Z.inj_mul, !Z2Pos.id, Ea by assumption. lia.
Qed.

(** [_multiply] returns the product of the magnitudes. *)
Lemma multiply_value (a b : Rational) :
  valid a -> valid b ->
  exists r,
    _multiply a b = Ret r /\ canonical r /\ isNegative r = false /\
    (value r == magnitude a * magnitude b)%Q.
Proof.
  intros Ha Hb.
  destruct (multiply_magnitudes a b Ha Hb) as (r & E & Hc & Hneg & Hval).
  exists r. split; [exact E |]. split; [exact Hc |]. split; [exact Hneg |].
  destruct Ha as (_ & Hda & _), Hb as (_ & Hdb & _), Hc as ((_ & Hdr & _) & _).
  unfold Qeq, Qmult, value, magnitude, signedNum. rewrite Hneg. cbn [Qnum Qden].
  rewrite Pos2Z.inj_mul, !Z2Pos.id by assumption. exact Hval.
Qed.

Lemma value_magnitude (r : Rational) :
  isNegative r = false -> value r = magnitude r.
Proof. intro H. unfold value, magnitude, signedNum. rewrite H. reflexivity. Qed.

(** ** The variadic operators *)

Lemma add_no_operand (fuel : nat) : add fuel [] = Ret (mkRational 0 1 false).
Proof. vm_compute. reflexivity. Qed.

Lemma multiply_no_operand : multiply [] = Ret (mkRational 1 1 false).
Proof. vm_compute. reflexivity. Qed.

(** [add(x)] is [x] for every canonical [x]. *)
Lemma add_one_operand (fuel : nat) (a : Rational) :
  canonical a -> add (3 + fuel) [a] = Ret a.
Proof.
  intro Ha. unfold add.
  replace (construct 0 1) with (Ret (mkRational 0 1 false))
    by (vm_compute; reflexivity).
  cbn [bind reduce].
  assert (Hz : valid (mkRational 0 1 false))
    by (unfold valid; cbn; repeat split; lia).
  destruct (add_value fuel (mkRational 0 1 false) a Hz (proj1 Ha))
    as (r & E & Hc & Hval).
  rewrite E. cbn [bind]. f_equal.
  apply canonical_value_inj; try assumption.
  rewrite Hval. unfold value at 1. cbn. apply Qplus_0_l.
Qed.

(** [multiply(x)] is [x] without its sign. *)
Lemma multiply_one_operand (a : Rational) :
  valid a ->
  multiply [a] = Ret (mkRational (numerator a) (denominator a) false).
Proof.
  intros (Hn & Hd & Hg). unfold multiply.
  replace (construct 1 1) with (Ret (mkRational 1 1 false))
    by (vm_compute; reflexivity).
  cbn [bind reduce]. unfold _multiply. cbn [numerator denominator].
  rewrite !Z.mul_1_l. rewrite construct_reduced by assumption.
  cbn [bind]. rewrite Z.abs_eq by lia.
  destruct (Z.ltb_spec (numerator a) 0); [lia | reflexivity].
Qed.

(** [_add] is associative on valid operands. *)
Lemma add_associative (fuel : nat) (a b c : Rational) :
  valid a -> valid b -> valid c ->
  exists r,
    (ab <- _add (3 + fuel) a b ;; _add (3 + fuel) ab c) = Ret r /\
    (bc <- _add (3 + fuel) b c ;; _add (3 + fuel) a bc) = Ret r.
Proof.
  intros Ha Hb Hc.
  destruct (add_value fuel a b Ha Hb) as (ab & Eab & Hab & Vab).
  destruct (add_value fuel ab c (proj1 Hab) Hc) as (r1 & E1 & H1 & V1).
  destruct (add_value fuel b c Hb Hc) as (bc & Ebc & Hbc & Vbc).
  destruct (add_value fuel a bc Ha (proj1 Hbc)) as (r2 & E2 & H2 & V2).
  exists r1. rewrite Eab, Ebc. cbn [bind]. split; [exact E1 |].
  rewrite E2. f_equal.
  apply canonical_value_inj; try assumption.
  rewrite V1, V2, Vab, Vbc. apply Qplus_assoc.
Qed.

(** [_multiply] is associative on valid operands. *)
Lemma multiply_associative (a b c : Rational) :
  valid a -> valid b -> valid c ->
  exists r,
    (ab <- _multiply a b ;; _multiply ab c) = Ret r /\
    (bc <- _multiply b c ;; _multiply a bc) = Ret r.
Proof.
  intros Ha Hb Hc.
  destruct (multiply_value a b Ha Hb) as (ab & Eab & Hab & Nab & Vab).
  destruct (multiply_value ab c (proj1 Hab) Hc) as (r1 & E1 & H1 & N1 & V1).
  destruct (multiply_value b c Hb Hc) as (bc & Ebc & Hbc & Nbc & Vbc).
  destruct (multiply_value a bc Ha (proj1 Hbc)) as (r2 & E2 & H2 & N2 & V2).
  exists r1. rewrite Eab, Ebc. cbn [bind]. split; [exact E1 |].
  rewrite E2. f_equal.
  apply canonical_value_inj; try assumption.
  rewrite V1, V2.
  rewrite <- (value_magnitude ab Nab), <- (value_magnitude bc Nbc).
  rewrite Vab, Vbc. apply Qmult_assoc.
Qed.

(** The constructor stores a signed zero for a zero numerator over any
    negative denominator, and a canonical triple in every other case. *)
Lemma construct_signed_zero (q : Z) :
  q < 0 -> construct 0 q = Ret (mkRational 0 1 true).
Proof.
  intro Hq.
  destruct (construct_spec 0 q ltac:(lia)) as (r & E & (Hn & Hd & Hg) & Hs & Hm).
  rewrite E. f_equal. destruct r as [nr dr sr].
  cbn [numerator denominator isNegative] in *.
  assert (nr = 0) by nia. subst nr.
  rewrite Z.gcd_0_l in Hg.
  destruct (Z.ltb_spec q 0); [| lia]. cbn in Hs. subst sr.
  f_equal. lia.
Qed.

Lemma construct_canonical (p q : Z) :
  q <> 0 -> p <> 0 \/ 0 < q ->
  exists r, construct p q = Ret r /\ canonical r.
Proof.
  intros Hq Hpq.
  destruct (construct_spec p q Hq) as (r & E & Hv & Hs & Hm).
  exists r. split; [exact E |]. split; [exact Hv |].
  intro Hz. rewrite Hz in Hm. destruct Hv as (_ & Hd & _).
  assert (Hp : p = 0) by nia.
  rewrite Hs. subst p.
  destruct (Z.ltb_spec q 0); [lia | reflexivity].
Qed.

(** ** The repository's unit tests, replayed on the embedding *)

Example test_cannot_divide_by_zero : construct 1 0 = Throw RangeError.
Proof. reflexivity. Qed.

Example test_normalization : construct 2 4 = Ret (mkRational 1 2 false).
Proof. vm_compute. reflexivity. Qed.

Example test_signs :
  construct (-1) 2 = Ret (mkRational 1 2 true) /\
  construct 1 (-2) = Ret (mkRational 1 2 true) /\
  construct (-1) (-2) = Ret (mkRational 1 2 false).
Proof. repeat split; vm_compute; reflexivity. Qed.

Example test_toString :
  toString (mkRational 1 2 false) = "1/2" /\
  toString (mkRational 3 7 true) = "-3/7".
Proof. split; vm_compute; reflexivity. Qed.

Example test_toDecimalPlaces :
  toDecimalPlaces 20 (mkRational 0 1 false) (Integer 5) = Ret "0" /\
  toDecimalPlaces 20 (mkRational 1 2 false) (Integer 1) = Ret "0.5" /\
  toDecimalPlaces 20 (mkRational 1 5 false) (Integer 1) = Ret "0.2" /\
  toDecimalPlaces 20 (mkRational 367 1000 false) (Integer 3) = Ret "0.367" /\
  toDecimalPlaces 20 (mkRational 1 3 false) (Integer 1) = Ret "0.3" /\
  toDecimalPlaces 20 (mkRational 1 3 false) (Integer 2) = Ret "0.33" /\
  toDecimalPlaces 20 (mkRational 1 3 false) (Integer 5) = Ret "0.33333" /\
  toDecimalPlaces 20 (mkRational 5 2 false) (Integer 2) = Ret "2.5" /\
  toDecimalPlaces 20 (mkRational 5 3 false) (Integer 2) = Ret "1.6" /\
  toDecimalPlaces 20 (mkRational 1 2 false) NonInteger = Throw TypeError /\
  toDecimalPlaces 20 (mkRational 1 2 false) (Integer (-1)) = Throw RangeError.
Proof. repeat split; vm_compute; reflexivity. Qed.

Example test_add_half_third :
  add 3 [mkRational 1 2 false; mkRational 1 3 false] = Ret (mkRational 5 6 false).
Proof. vm_compute. reflexivity. Qed.

(** * Part IV: the claims of the specification *)

(** C5: for every [p] and every nonzero [q] the constructor returns a triple
    with positive denominator, non-negative numerator and
    [gcd numerator denominator = 1]; the Euclidean loop it runs is total and
    returns the greatest common divisor, each iteration replacing [(a, b)] by
    [(b, a rem b)] with [0 <= a rem b < b]. *)
Theorem construct_normalizes (p q : Z) :
  q <> 0 ->
  (exists r,
      construct p q = Ret r /\
      0 < denominator r /\ 0 <= numerator r /\
      Z.gcd (numerator r) (denominator r) = 1) /\
  gcd (Z.abs p) (Z.abs q) = Z.gcd p q /\
  (forall a b, 0 <= a -> 0 < b ->
     gcd a b = gcd b (Z.rem a b) /\ 0 <= Z.rem a b < b).
Proof.
  intro Hq. split; [| split].
  - destruct (construct_spec p q Hq) as (r & E & (Hn & Hd & Hg) & _).
    exists r. auto.
  - rewrite gcd_nonneg_spec by apply Z.abs_nonneg.
    rewrite Z.gcd_abs_l, Z.gcd_abs_r. reflexivity.
  - intros a b Ha Hb. split.
    + rewrite (gcd_loop_eq a b).
      destruct (Z.eqb_spec b 0); [lia | reflexivity].
    + rewrite Z.rem_mod_nonneg by lia. apply Z.mod_pos_bound. exact Hb.
Qed.

Lemma construct_normalizes_witness :
  (exists r,
      construct (-6) 4 = Ret r /\
      0 < denominator r /\ 0 <= numerator r /\
      Z.gcd (numerator r) (denominator r) = 1) /\
  gcd (Z.abs (-6)) (Z.abs 4) = Z.gcd (-6) 4 /\
  (forall a b, 0 <= a -> 0 < b ->
     gcd a b = gcd b (Z.rem a b) /\ 0 <= Z.rem a b < b).
Proof.
  apply (construct_normalizes (-6) 4). lia.
Defined.

(** C3, at the input where the code departs from it: a zero numerator over a
    negative denominator is stored with [isNegative = true], a second zero
    next to the canonical one. *)
Theorem construct_zero_over_negative :
  construct 0 (-1) = Ret (mkRational 0 1 true) /\
  construct 0 1 = Ret (mkRational 0 1 false).
Proof. split; vm_compute; reflexivity. Qed.

(** C1, at the input where the code departs from it: the product of -1/2
    and 1/3 is returned as 1/6, not as -1/6. *)
Theorem multiply_drops_sign :
  construct (-1) 2 = Ret (mkRational 1 2 true) /\
  construct 1 3 = Ret (mkRational 1 3 false) /\
  multiply [mkRational 1 2 true; mkRational 1 3 false]
  = Ret (mkRational 1 6 false) /\
  construct (-1) 6 = Ret (mkRational 1 6 true).
Proof. repeat split; vm_compute; reflexivity. Qed.

(** C2, at the input where the code departs from it: 1/2 minus -1/3 is
    returned as 1/6, the difference of the magnitudes, not as 5/6. *)
Theorem subtract_ignores_second_sign :
  construct 1 2 = Ret (mkRational 1 2 false) /\
  construct (-1) 3 = Ret (mkRational 1 3 true) /\
  (forall fuel,
     subtract (S fuel) (mkRational 1 2 false) [mkRational 1 3 true]
     = Ret (mkRational 1 6 false)) /\
  construct 5 6 = Ret (mkRational 5 6 false).
Proof.
  repeat split; try (vm_compute; reflexivity).
Qed.

(** C6, at the input where the code departs from it: the two zeros that the
    constructor can produce compare equal although their triples differ. *)
Theorem cmp_equates_distinct_zeros :
  construct 0 (-1) = Ret (mkRational 0 1 true) /\
  construct 0 1 = Ret (mkRational 0 1 false) /\
  cmp (mkRational 0 1 true) (mkRational 0 1 false) = 0 /\
  mkRational 0 1 true <> mkRational 0 1 false.
Proof.
  repeat split; try (vm_compute; reflexivity).
  intro H. discriminate H.
Qed.

(** C7, at the input where the code departs from it: [multiply] of the
    single operand -1/2 returns 1/2. *)
Theorem multiply_single_operand_loses_sign :
  construct (-1) 2 = Ret (mkRational 1 2 true) /\
  multiply [mkRational 1 2 true] = Ret (mkRational 1 2 false) /\
  mkRational 1 2 false <> mkRational 1 2 true.
Proof.
  repeat split; try (vm_compute; reflexivity).
  intro H. discriminate H.
Qed.

(** C8: [toDecimalPlaces] throws a [TypeError] when [n] is no integer and a
    [RangeError] when [n] is a negative integer, in both cases whatever the
    receiver and with no loop iteration allowed (any fuel, even none); for a
    non-negative integer [n] and a valid receiver it returns a string. *)
Theorem toDecimalPlaces_argument_checks :
  (forall fuel r, toDecimalPlaces fuel r NonInteger = Throw TypeError) /\
  (forall fuel r z, z < 0 -> toDecimalPlaces fuel r (Integer z) = Throw RangeError) /\
  (forall fuel r z,
      valid r -> 0 <= z -> (enoughFuel (denominator r) z <= fuel)%nat ->
      exists s, toDecimalPlaces fuel r (Integer z) = Ret s).
Proof.
  split; [| split].
  - intros fuel r. reflexivity.
  - intros fuel r z Hz. unfold toDecimalPlaces.
    destruct (Z.ltb_spec z 0); [reflexivity | lia].
  - intros fuel r z Hv Hz Hf.
    destruct (toDecimalPlaces_spec fuel r z Hv Hz Hf) as (body & k & E & _).
    eexists. exact E.
Qed.

Lemma toDecimalPlaces_argument_checks_witness :
  toDecimalPlaces 0 (mkRational 1 2 false) NonInteger = Throw TypeError /\
  toDecimalPlaces 0 (mkRational 1 2 false) (Integer (-1)) = Throw RangeError /\
  exists s, toDecimalPlaces 20 (mkRational 1 2 false) (Integer 1) = Ret s.
Proof.
  destruct toDecimalPlaces_argument_checks as (H1 & H2 & H3).
  split; [apply H1 | split; [apply H2; lia |]].
  apply H3.
  - unfold valid. simpl. repeat split; lia.
  - lia.
  - vm_compute. lia.
Defined.

(** C10: with a budget of zero digits and a nonzero numerator nothing is
    emitted: the result is the empty string, or the bare sign for a negative
    receiver. *)
Theorem toDecimalPlaces_zero_budget (fuel : nat) (r : Rational) :
  numerator r <> 0 ->
  toDecimalPlaces (S fuel) r (Integer 0)
  = Ret (if isNegative r then "-" else EmptyString).
Proof.
  intro Hnum. unfold toDecimalPlaces.
  destruct (Z.eqb_spec (numerator r) 0) as [E | _]; [contradiction |].
  cbn. destruct (isNegative r); reflexivity.
Qed.

Lemma toDecimalPlaces_zero_budget_witness :
  toDecimalPlaces 1 (mkRational 5 3 true) (Integer 0) = Ret "-".
Proof.
  apply (toDecimalPlaces_zero_budget 0 (mkRational 5 3 true)).
  simpl. lia.
Defined.

(** C4, as the code has it: the integer part is always printed in full, so
    the returned string holds at most [max n d] significant digits, [d] being
    the number of digits of the integer part (none for a value below one);
    in particular at most [n] when the integer part has at most [n] digits. *)
Theorem toDecimalPlaces_digit_budget (fuel : nat) (r : Rational) (n : Z) :
  valid r -> 0 <= n -> (enoughFuel (denominator r) n <= fuel)%nat ->
  exists s,
    toDecimalPlaces fuel r (Integer n) = Ret s /\
    countSignificantDigits s
      <= Z.max n (integerDigits (numerator r) (denominator r)).
Proof.
  intros Hv Hn Hf.
  destruct (toDecimalPlaces_spec fuel r n Hv Hn Hf)
    as (body & k & E & _ & _ & Hcnt).
  eexists. split; [exact E |].
  rewrite csd_signPrefix. exact Hcnt.
Qed.

Lemma toDecimalPlaces_digit_budget_witness :
  exists s,
    toDecimalPlaces 30 (mkRational 1 3 false) (Integer 3) = Ret s /\
    countSignificantDigits s <= Z.max 3 (integerDigits 1 3).
Proof.
  apply (toDecimalPlaces_digit_budget 30 (mkRational 1 3 false) 3).
  - unfold valid. simpl. repeat split; lia.
  - lia.
  - vm_compute. lia.
Defined.

(** C4 as stated fails: 123/1 asked for one significant digit prints all
    three digits of its integer part. *)
Lemma toDecimalPlaces_digit_budget_counterexample :
  construct 123 1 = Ret (mkRational 123 1 false) /\
  toDecimalPlaces 2 (mkRational 123 1 false) (Integer 1) = Ret "123" /\
  countSignificantDigits "123" = 3 /\
  ~ (countSignificantDigits "123" <= 1).
Proof.
  repeat split; try (vm_compute; reflexivity).
  vm_compute. intro H. apply H. reflexivity.
Qed.

(** * Part V: further properties of the code *)

(** ** Helpers *)

(** On all integers the Euclidean loop returns the greatest common divisor
    up to sign. *)
Lemma gcd_abs (a b : Z) : Z.abs (gcd a b) = Z.gcd a b.
Proof.
  funelim (gcd a b).
  - subst. rewrite Z.gcd_0_r. reflexivity.
  - match goal with
    | IH : Z.abs (gcd b _) = _ |- _ => rewrite IH
    end.
    pose proof (Z.quot_rem' a b) as E.
    rewrite E at 2.
    rewrite (Z.add_comm (b * (a ÷ b))), (Z.mul_comm b).
    rewrite (Z.gcd_comm (Z.rem a b + a ÷ b * b) b).
    symmetry. apply Z.gcd_add_mult_diag_r.
Qed.

Lemma canonical_valid (r : Rational) : canonical r -> valid r.
Proof. intros [H _]. exact H. Qed.

Lemma valid_zero : canonical (mkRational 0 1 false).
Proof. unfold canonical, valid. cbn. repeat split; lia. Qed.

Lemma value_zero : (value (mkRational 0 1 false) == 0)%Q.
Proof. reflexivity. Qed.

(** ** The constructor *)

(** X1: the constructor fails exactly on a zero denominator, and then with a
    [RangeError]; for every other pair it returns a triple. *)
Theorem construct_fails_iff_zero_denominator (p q : Z) :
  (construct p q = Throw RangeError <-> q = 0) /\
  (q <> 0 <-> exists r, construct p q = Ret r).
Proof.
  destruct (Z.eq_dec q 0) as [-> | Hq].
  - assert (E : construct p 0 = Throw RangeError) by reflexivity.
    rewrite E. split; split; try reflexivity; try tauto.
    intros (r & F). discriminate F.
  - destruct (construct_spec p q Hq) as (r & E & _).
    rewrite E. split; split; intro H; try discriminate H; try contradiction.
    + exists r. reflexivity.
    + exact Hq.
Qed.

(** X2: the triple built from [p] and a nonzero [q] stands for the fraction
    [p / q] exactly, and its sign flag is set when exactly one of [p], [q]
    is negative. *)
Theorem construct_represents_fraction (p q : Z) :
  q <> 0 ->
  exists r,
    construct p q = Ret r /\
    signedNum r * q = p * denominator r /\
    isNegative r = xorb (p <? 0) (q <? 0).
Proof.
  intro Hq.
  destruct (construct_value p q Hq) as (r & E & _ & Hval & Hs & _).
  exists r. auto.
Qed.

Lemma construct_represents_fraction_witness :
  exists r,
    construct 6 (-4) = Ret r /\
    signedNum r * (-4) = 6 * denominator r /\
    isNegative r = xorb (6 <? 0) (-4 <? 0).
Proof. apply (construct_represents_fraction 6 (-4)). lia. Defined.

(** X3: with positive denominators two pairs are stored as the same triple
    exactly when they are the same fraction. *)
Theorem construct_equal_iff_same_fraction (p q p' q' : Z) :
  0 < q -> 0 < q' ->
  (construct p q = construct p' q' <-> p * q' = p' * q).
Proof.
  intros Hq Hq'.
  destruct (construct_value p q ltac:(lia)) as (r & E & Hv & Hval & _ & Hc).
  destruct (construct_value p' q' ltac:(lia)) as (r' & E' & Hv' & Hval' & _ & Hc').
  rewrite E, E'.
  destruct Hv as (_ & Hd & _). pose proof Hv' as (_ & Hd' & _).
  split.
  - intro H. injection H as <-.
    apply (Z.mul_reg_r _ _ (denominator r)); [lia |].
    transitivity (signedNum r * q * q'); [rewrite Hval; ring |].
    transitivity (signedNum r * q' * q); [ring |]. rewrite Hval'. ring.
  - intro H. f_equal.
    apply canonical_value_inj; [apply Hc; exact Hq | apply Hc'; exact Hq' |].
    apply value_cross; [apply Hc; exact Hq | exact Hv' |].
    apply (Z.mul_reg_r _ _ (q * q')); [nia |].
    transitivity ((signedNum r * q) * (denominator r' * q')); [ring |].
    rewrite Hval.
    transitivity ((signedNum r' * q') * (denominator r * q)); [| ring].
    rewrite Hval'.
    transitivity ((p * q') * (denominator r * denominator r')); [ring |].
    rewrite H. ring.
Qed.

Lemma construct_equal_iff_same_fraction_witness :
  construct 2 4 = construct 3 6 <-> 2 * 6 = 3 * 4.
Proof. apply (construct_equal_iff_same_fraction 2 4 3 6); lia. Defined.

(** X4: scaling numerator and denominator by the same positive factor does
    not change the stored triple. *)
Theorem construct_scale_invariant (k p q : Z) :
  0 < k -> q <> 0 -> construct (k * p) (k * q) = construct p q.
Proof.
  intros Hk Hq.
  destruct (construct_spec p q Hq) as (r & E & (Hn & Hd & Hg) & Hs & Hm).
  destruct (construct_spec (k * p) (k * q) ltac:(nia))
    as (r' & E' & (Hn' & Hd' & Hg') & Hs' & Hm').
  rewrite E, E'. f_equal.
  rewrite !Z.abs_mul, (Z.abs_eq k) in Hm' by lia.
  assert (Hq0 : 0 < Z.abs q) by lia.
  destruct (reduced_unique (numerator r') (denominator r')
              (numerator r) (denominator r)) as [En Ed]; try assumption.
  { apply (Z.mul_reg_r _ _ (k * Z.abs q)); [nia |].
    transitivity ((numerator r' * (k * Z.abs q)) * denominator r); [ring |].
    rewrite Hm'.
    transitivity ((numerator r * Z.abs q) * (k * denominator r')); [| ring].
    rewrite Hm. ring. }
  assert (Esign : isNegative r' = isNegative r).
  { rewrite Hs, Hs'.
    destruct (Z.ltb_spec (k * p) 0), (Z.ltb_spec p 0),
             (Z.ltb_spec (k * q) 0), (Z.ltb_spec q 0);
      try reflexivity; nia. }
  destruct r, r'. cbn [numerator denominator isNegative] in *. congruence.
Qed.

Lemma construct_scale_invariant_witness :
  construct (5 * 3) (5 * -7) = construct 3 (-7).
Proof. apply (construct_scale_invariant 5 3 (-7)); lia. Defined.

(** X5: a canonical triple is rebuilt unchanged from its signed numerator
    and its denominator. *)
Theorem construct_round_trip (r : Rational) :
  canonical r -> construct (signedNum r) (denominator r) = Ret r.
Proof.
  intros ((Hn & Hd & Hg) & Hz).
  destruct r as [n d s]. unfold signedNum.
  cbn [numerator denominator isNegative] in *.
  rewrite construct_reduced; [| exact Hd |].
  - f_equal. destruct s.
    + assert (n <> 0) by (intro E; specialize (Hz E); discriminate Hz).
      rewrite Z.abs_neq by lia. rewrite Z.opp_involutive.
      destruct (Z.ltb_spec (- n) 0); [reflexivity | lia].
    + rewrite Z.abs_eq by lia.
      destruct (Z.ltb_spec n 0); [lia | reflexivity].
  - destruct s; [rewrite Z.gcd_opp_l |]; exact Hg.
Qed.

Lemma construct_round_trip_witness :
  construct (signedNum (mkRational 3 7 true)) (denominator (mkRational 3 7 true))
  = Ret (mkRational 3 7 true).
Proof.
  apply (construct_round_trip (mkRational 3 7 true)).
  unfold canonical, valid. cbn. repeat split; lia.
Defined.

(** X6: on all integers, negative ones included, [gcd] returns the greatest
    common divisor up to sign; it returns [0] only for [gcd 0 0]. *)
Theorem gcd_is_gcd_up_to_sign (a b : Z) :
  Z.abs (gcd a b) = Z.gcd a b /\ (gcd a b = 0 <-> a = 0 /\ b = 0).
Proof.
  pose proof (gcd_abs a b) as H. split; [exact H |].
  rewrite <- Z.gcd_eq_0. rewrite <- H. lia.
Qed.

(** ** Negation, addition, subtraction, multiplication *)

Lemma enough_fuel_3 (fuel : nat) : (3 <= fuel)%nat -> fuel = (3 + (fuel - 3))%nat.
Proof. lia. Qed.

(** X7: [negate] keeps numerator and denominator, returns a canonical
    triple and negates the value; in particular it turns either zero into
    the unsigned zero. *)
Theorem negate_negates_value (a : Rational) :
  valid a ->
  exists r,
    negate a = Ret r /\ canonical r /\
    numerator r = numerator a /\ denominator r = denominator a /\
    (value r == - value a)%Q.
Proof.
  intro Ha.
  destruct (negate_valid a Ha) as (r & E & Hc & Hd & Hs).
  exists r. split; [exact E |]. split; [exact Hc |].
  rewrite (negate_spec a Ha) in E. injection E as <-.
  cbn [numerator denominator]. repeat split.
  unfold value, Qopp. cbn [Qnum Qden denominator]. rewrite Hs. reflexivity.
Qed.

Lemma negate_negates_value_witness :
  exists r,
    negate (mkRational 0 1 true) = Ret r /\ canonical r /\
    numerator r = 0 /\ denominator r = 1 /\
    (value r == - value (mkRational 0 1 true))%Q.
Proof.
  apply (negate_negates_value (mkRational 0 1 true)).
  unfold valid. cbn. repeat split; lia.
Defined.

(** X8: negating twice gives back a canonical triple. *)
Theorem negate_involutive (a : Rational) :
  canonical a -> (r <- negate a ;; negate r) = Ret a.
Proof.
  intros [Ha Hz].
  destruct (negate_valid a Ha) as (r & E & Hc & _).
  rewrite E. cbn [bind]. rewrite (negate_spec r (canonical_valid r Hc)).
  rewrite (negate_spec a Ha) in E. injection E as <-.
  cbn [numerator denominator isNegative].
  destruct a as [n d s]. cbn [numerator denominator isNegative] in *.
  f_equal. f_equal.
  destruct s, (Z.eqb_spec n 0) as [E0 | N0]; try reflexivity.
  specialize (Hz E0). discriminate Hz.
Qed.

Lemma negate_involutive_witness :
  (r <- negate (mkRational 3 7 true) ;; negate r) = Ret (mkRational 3 7 true).
Proof.
  apply (negate_involutive (mkRational 3 7 true)).
  unfold canonical, valid. cbn. repeat split; lia.
Defined.

(** X9: for valid operands of any signs [_add] returns, within three levels
    of the mutual recursion, the canonical triple of the exact sum. *)
Theorem add_returns_exact_sum (fuel : nat) (a b : Rational) :
  (3 <= fuel)%nat -> valid a -> valid b ->
  exists r,
    _add fuel a b = Ret r /\ canonical r /\ (value r == value a + value b)%Q.
Proof.
  intros Hf Ha Hb. rewrite (enough_fuel_3 fuel Hf).
  apply add_value; assumption.
Qed.

Lemma add_returns_exact_sum_witness :
  exists r,
    _add 3 (mkRational 1 2 true) (mkRational 1 3 true) = Ret r /\ canonical r /\
    (value r == value (mkRational 1 2 true) + value (mkRational 1 3 true))%Q.
Proof.
  apply (add_returns_exact_sum 3 (mkRational 1 2 true) (mkRational 1 3 true));
    [lia | |]; unfold valid; cbn; repeat split; lia.
Defined.

(** X10: [_add] is commutative on valid operands. *)
Theorem add_commutative (fuel : nat) (a b : Rational) :
  (3 <= fuel)%nat -> valid a -> valid b -> _add fuel a b = _add fuel b a.
Proof.
  intros Hf Ha Hb. rewrite (enough_fuel_3 fuel Hf).
  destruct (add_value (fuel - 3) a b Ha Hb) as (r & E & Hc & Hv).
  destruct (add_value (fuel - 3) b a Hb Ha) as (r' & E' & Hc' & Hv').
  rewrite E, E'. f_equal.
  apply canonical_value_inj; try assumption.
  rewrite Hv, Hv'. apply Qplus_comm.
Qed.

Lemma add_commutative_witness :
  _add 3 (mkRational 1 2 true) (mkRational 1 3 false)
  = _add 3 (mkRational 1 3 false) (mkRational 1 2 true).
Proof.
  apply (add_commutative 3 (mkRational 1 2 true) (mkRational 1 3 false));
    [lia | |]; unfold valid; cbn; repeat split; lia.
Defined.

(** X11: [_subtract] returns the canonical triple of the exact difference
    whenever its receiver is negative or its second operand is not. *)
Theorem subtract_returns_exact_difference (fuel : nat) (a b : Rational) :
  (3 <= fuel)%nat -> valid a -> valid b ->
  isNegative a = true \/ isNegative b = false ->
  exists r,
    _subtract fuel a b = Ret r /\ canonical r /\
    (value r == value a - value b)%Q.
Proof.
  intros Hf Ha Hb Hs. rewrite (enough_fuel_3 fuel Hf).
  apply subtract_value; assumption.
Qed.

Lemma subtract_returns_exact_difference_witness :
  exists r,
    _subtract 3 (mkRational 1 2 true) (mkRational 1 3 true) = Ret r /\
    canonical r /\
    (value r == value (mkRational 1 2 true) - value (mkRational 1 3 true))%Q.
Proof.
  apply (subtract_returns_exact_difference 3
           (mkRational 1 2 true) (mkRational 1 3 true));
    [lia | | | left; reflexivity]; unfold valid; cbn; repeat split; lia.
Defined.

(** X12: subtracting a valid triple from itself gives the unsigned zero. *)
Theorem subtract_self_is_zero (fuel : nat) (a : Rational) :
  (3 <= fuel)%nat -> valid a ->
  _subtract fuel a a = Ret (mkRational 0 1 false).
Proof.
  intros Hf Ha. rewrite (enough_fuel_3 fuel Hf).
  assert (Hs : isNegative a = true \/ isNegative a = false)
    by (destruct (isNegative a); auto).
  destruct (subtract_value (fuel - 3) a a Ha Ha Hs) as (r & E & Hc & Hv).
  rewrite E. f_equal.
  apply canonical_value_inj; [exact Hc | exact valid_zero |].
  rewrite Hv, value_zero. apply Qplus_opp_r.
Qed.

Lemma subtract_self_is_zero_witness :
  _subtract 3 (mkRational 3 7 true) (mkRational 3 7 true)
  = Ret (mkRational 0 1 false).
Proof.
  apply (subtract_self_is_zero 3 (mkRational 3 7 true)); [lia |].
  unfold valid. cbn. repeat split; lia.
Defined.

(** X13: a valid triple plus its negation is the unsigned zero. *)
Theorem add_negation_is_zero (fuel : nat) (a : Rational) :
  (3 <= fuel)%nat -> valid a ->
  (na <- negate a ;; _add fuel a na) = Ret (mkRational 0 1 false).
Proof.
  intros Hf Ha. rewrite (enough_fuel_3 fuel Hf).
  destruct (negate_valid a Ha) as (na & E & Hc & Hd & Hs).
  rewrite E. cbn [bind].
  destruct (add_value (fuel - 3) a na Ha (canonical_valid na Hc))
    as (r & Er & Hcr & Hv).
  rewrite Er. f_equal.
  apply canonical_value_inj; [exact Hcr | exact valid_zero |].
  rewrite Hv, value_zero.
  assert (Hna : (value na == - value a)%Q).
  { unfold value, Qopp. cbn [Qnum Qden]. rewrite Hs, Hd. reflexivity. }
  rewrite Hna. apply Qplus_opp_r.
Qed.

Lemma add_negation_is_zero_witness :
  (na <- negate (mkRational 3 7 false) ;; _add 3 (mkRational 3 7 false) na)
  = Ret (mkRational 0 1 false).
Proof.
  apply (add_negation_is_zero 3 (mkRational 3 7 false)); [lia |].
  unfold valid. cbn. repeat split; lia.
Defined.

(** X14: [_multiply] never fails on valid operands and returns the canonical,
    non-negative triple of the product of the two magnitudes; this is the
    exact product whenever the operands carry the same sign flag. *)
Theorem multiply_returns_product_of_magnitudes (a b : Rational) :
  valid a -> valid b ->
  exists r,
    _multiply a b = Ret r /\ canonical r /\ isNegative r = false /\
    (value r == magnitude a * magnitude b)%Q /\
    (isNegative a = isNegative b -> (value r == value a * value b)%Q).
Proof.
  intros Ha Hb.
  destruct (multiply_value a b Ha Hb) as (r & E & Hc & Hneg & Hv).
  exists r. repeat (split; [assumption |]).
  intro Hs. rewrite Hv.
  unfold Qeq, Qmult, value, magnitude, signedNum. rewrite Hs.
  cbn [Qnum Qden]. destruct (isNegative b); ring.
Qed.

Lemma multiply_returns_product_of_magnitudes_witness :
  exists r,
    _multiply (mkRational 1 2 true) (mkRational 2 3 true) = Ret r /\
    canonical r /\ isNegative r = false /\
    (value r == magnitude (mkRational 1 2 true) * magnitude (mkRational 2 3 true))%Q /\
    (isNegative (mkRational 1 2 true) = isNegative (mkRational 2 3 true) ->
     (value r == value (mkRational 1 2 true) * value (mkRational 2 3 true))%Q).
Proof.
  apply (multiply_returns_product_of_magnitudes
           (mkRational 1 2 true) (mkRational 2 3 true));
    unfold valid; cbn; repeat split; lia.
Defined.

(** ** The variadic operators on lists of operands *)

Lemma reduce_add_sum (fuel : nat) (l : list Rational) (acc : Rational) :
  canonical acc -> Forall valid l ->
  exists r,
    reduce (_add (3 + fuel)) l acc = Ret r /\ canonical r /\
    (value r == value acc + sumValues l)%Q.
Proof.
  intros Hacc Hl. revert acc Hacc.
  induction Hl as [| a l Ha Hl IH]; intros acc Hacc.
  - exists acc. split; [reflexivity |]. split; [exact Hacc |].
    cbn [sumValues fold_right]. symmetry. apply Qplus_0_r.
  - cbn [reduce].
    destruct (add_value fuel acc a (canonical_valid acc Hacc) Ha)
      as (r1 & E1 & Hc1 & Hv1).
    rewrite E1. cbn [bind].
    destruct (IH r1 Hc1) as (r & E & Hc & Hv).
    exists r. split; [exact E |]. split; [exact Hc |].
    rewrite Hv, Hv1. cbn [sumValues fold_right].
    symmetry. apply Qplus_assoc.
Qed.

(** X15: [add] over any list of valid operands never fails and returns the
    canonical triple of the exact sum of their values ([0/1] for no
    operand). *)
Theorem add_sums_all_operands (fuel : nat) (theArgs : list Rational) :
  (3 <= fuel)%nat -> Forall valid theArgs ->
  exists r,
    add fuel theArgs = Ret r /\ canonical r /\ (value r == sumValues theArgs)%Q.
Proof.
  intros Hf Hl. rewrite (enough_fuel_3 fuel Hf). unfold add.
  replace (construct 0 1) with (Ret (mkRational 0 1 false))
    by (vm_compute; reflexivity).
  cbn [bind].
  destruct (reduce_add_sum (fuel - 3) theArgs _ valid_zero Hl) as (r & E & Hc & Hv).
  exists r. split; [exact E |]. split; [exact Hc |].
  rewrite Hv, value_zero. apply Qplus_0_l.
Qed.

Lemma add_sums_all_operands_witness :
  exists r,
    add 3 [mkRational 1 2 true; mkRational 1 3 false; mkRational 1 6 false] = Ret r /\
    canonical r /\
    (value r ==
     sumValues [mkRational 1 2 true; mkRational 1 3 false; mkRational 1 6 false])%Q.
Proof.
  apply (add_sums_all_operands 3); [lia |].
  repeat constructor; cbn; lia.
Defined.

Lemma reduce_multiply_product (l : list Rational) (acc : Rational) :
  canonical acc -> isNegative acc = false -> Forall valid l ->
  exists r,
    reduce _multiply l acc = Ret r /\ canonical r /\ isNegative r = false /\
    (value r == value acc * productMagnitudes l)%Q.
Proof.
  intros Hacc Hneg Hl. revert acc Hacc Hneg.
  induction Hl as [| a l Ha Hl IH]; intros acc Hacc Hneg.
  - exists acc. repeat (split; [reflexivity || assumption |]).
    cbn [productMagnitudes fold_right]. symmetry. apply Qmult_1_r.
  - cbn [reduce].
    destruct (multiply_value acc a (canonical_valid acc Hacc) Ha)
      as (r1 & E1 & Hc1 & Hn1 & Hv1).
    rewrite E1. cbn [bind].
    destruct (IH r1 Hc1 Hn1) as (r & E & Hc & Hn & Hv).
    exists r. repeat (split; [assumption |]).
    rewrite Hv, Hv1, <- (value_magnitude acc Hneg).
    cbn [productMagnitudes fold_right].
    symmetry. apply Qmult_assoc.
Qed.

(** X16: [multiply] over any list of valid operands never fails and returns
    the canonical, non-negative triple of the product of their magnitudes
    ([1/1] for no operand). *)
Theorem multiply_multiplies_all_magnitudes (theArgs : list Rational) :
  Forall valid theArgs ->
  exists r,
    multiply theArgs = Ret r /\ canonical r /\ isNegative r = false /\
    (value r == productMagnitudes theArgs)%Q.
Proof.
  intro Hl. unfold multiply.
  replace (construct 1 1) with (Ret (mkRational 1 1 false))
    by (vm_compute; reflexivity).
  cbn [bind].
  assert (Hone : canonical (mkRational 1 1 false))
    by (unfold canonical, valid; cbn; repeat split; lia).
  destruct (reduce_multiply_product theArgs _ Hone eq_refl Hl)
    as (r & E & Hc & Hn & Hv).
  exists r. repeat (split; [assumption |]).
  rewrite Hv. apply Qmult_1_l.
Qed.

Lemma multiply_multiplies_all_magnitudes_witness :
  exists r,
    multiply [mkRational 1 2 true; mkRational 2 3 false] = Ret r /\
    canonical r /\ isNegative r = false /\
    (value r == productMagnitudes [mkRational 1 2 true; mkRational 2 3 false])%Q.
Proof.
  apply multiply_multiplies_all_magnitudes.
  repeat constructor; cbn; lia.
Defined.

Lemma subtract_total (fuel : nat) (a b : Rational) :
  valid a -> valid b ->
  exists r, _subtract (3 + fuel) a b = Ret r /\ canonical r.
Proof.
  intros Ha Hb.
  destruct (isNegative a) eqn:Hsa.
  - destruct (subtract_value fuel a b Ha Hb (or_introl Hsa)) as (r & E & Hc & _).
    exists r. auto.
  - change (3 + fuel)%nat with (S (2 + fuel)).
    destruct (subtract_value_nonnegative_receiver (2 + fuel) a b Ha Hb Hsa)
      as (r & E & Hc & _).
    exists r. auto.
Qed.

(** X17: [subtract] never fails on valid operands of any signs and returns a
    valid triple; when no operand after the first is negative, it is the
    first value minus the sum of the others. *)
Theorem subtract_folds_operands (fuel : nat) (x0 : Rational)
  (theArgs : list Rational) :
  (3 <= fuel)%nat -> valid x0 -> Forall valid theArgs ->
  exists r,
    subtract fuel x0 theArgs = Ret r /\ valid r /\
    (Forall (fun a => isNegative a = false) theArgs ->
     (value r == value x0 - sumValues theArgs)%Q).
Proof.
  intros Hf Hx Hl. rewrite (enough_fuel_3 fuel Hf). unfold subtract.
  revert x0 Hx. induction Hl as [| a l Ha Hl IH]; intros acc Hacc.
  - exists acc. split; [reflexivity |]. split; [exact Hacc |].
    intros _. cbn [sumValues fold_right]. unfold Qminus.
    change (- 0)%Q with 0%Q. symmetry. apply Qplus_0_r.
  - cbn [reduce].
    destruct (subtract_total (fuel - 3) acc a Hacc Ha) as (r1 & E1 & Hc1).
    rewrite E1. cbn [bind].
    destruct (IH r1 (canonical_valid r1 Hc1)) as (r & E & Hv & Hexact).
    exists r. split; [exact E |]. split; [exact Hv |].
    intro Hnn. inversion Hnn as [| a' l' Hna Hnl]; subst.
    destruct (subtract_value (fuel - 3) acc a Hacc Ha (or_intror Hna))
      as (r1' & E1' & _ & Hv1).
    rewrite E1 in E1'. injection E1' as <-.
    rewrite (Hexact Hnl), Hv1. cbn [sumValues fold_right].
    unfold Qminus. rewrite Qopp_plus. apply Qplus_assoc || (symmetry; apply Qplus_assoc).
Qed.

Lemma subtract_folds_operands_witness :
  exists r,
    subtract 3 (mkRational 1 2 true) [mkRational 1 3 false; mkRational 1 6 false]
    = Ret r /\ valid r /\
    (Forall (fun a => isNegative a = false)
       [mkRational 1 3 false; mkRational 1 6 false] ->
     (value r == value (mkRational 1 2 true)
                 - sumValues [mkRational 1 3 false; mkRational 1 6 false])%Q).
Proof.
  apply (subtract_folds_operands 3); [lia | |].
  - unfold valid. cbn. repeat split; lia.
  - repeat constructor; cbn; lia.
Defined.

(** ** The comparator and the operators *)

Lemma cmp_Qcompare (a b : Rational) :
  valid a -> valid b ->
  cmp a b =
  match (value a ?= value b)%Q with
  | Lt => -1
  | Eq => 0
  | Gt => 1
  end.
Proof.
  intros (_ & Ha & _) (_ & Hb & _).
  rewrite cmp_compare. unfold Qcompare, value. cbn [Qnum Qden].
  rewrite !Z2Pos.id by assumption. reflexivity.
Qed.

Lemma Qcompare_plus_r (u v w : Q) : (u + w ?= v + w)%Q = (u ?= v)%Q.
Proof.
  destruct (Qcompare_spec u v) as [E | L | G].
  - apply Qeq_alt. rewrite E. reflexivity.
  - apply Qlt_alt. apply Qplus_lt_l. exact L.
  - apply Qgt_alt. apply Qplus_lt_l. exact G.
Qed.

(** X18: on valid triples [cmp] orders by value: it returns [-1], [0] or [1]
    as the first value is below, equal to or above the second. *)
Theorem cmp_orders_by_value (a b : Rational) :
  valid a -> valid b ->
  (cmp a b = -1 <-> (value a < value b)%Q) /\
  (cmp a b = 0 <-> (value a == value b)%Q) /\
  (cmp a b = 1 <-> (value b < value a)%Q).
Proof.
  intros Ha Hb. rewrite (cmp_Qcompare a b Ha Hb).
  rewrite Qlt_alt, Qeq_alt, (Qgt_alt (value a) (value b)).
  destruct (value a ?= value b)%Q; repeat split; intro H;
    try reflexivity; try discriminate H.
Qed.

Lemma cmp_orders_by_value_witness :
  (cmp (mkRational 1 2 true) (mkRational 1 3 false) = -1 <->
   (value (mkRational 1 2 true) < value (mkRational 1 3 false))%Q) /\
  (cmp (mkRational 1 2 true) (mkRational 1 3 false) = 0 <->
   (value (mkRational 1 2 true) == value (mkRational 1 3 false))%Q) /\
  (cmp (mkRational 1 2 true) (mkRational 1 3 false) = 1 <->
   (value (mkRational 1 3 false) < value (mkRational 1 2 true))%Q).
Proof.
  apply (cmp_orders_by_value (mkRational 1 2 true) (mkRational 1 3 false));
    unfold valid; cbn; repeat split; lia.
Defined.

(** X19: comparing the triples built from two pairs with positive
    denominators is comparing the cross products [p * q'] and [p' * q]. *)
Theorem cmp_of_constructed (p q p' q' : Z) :
  0 < q -> 0 < q' ->
  exists r r',
    construct p q = Ret r /\ construct p' q' = Ret r' /\
    cmp r r' =
    match p * q' ?= p' * q with
    | Lt => -1
    | Eq => 0
    | Gt => 1
    end.
Proof.
  intros Hq Hq'.
  destruct (construct_value p q ltac:(lia)) as (r & E & (_ & Hd & _) & Hval & _).
  destruct (construct_value p' q' ltac:(lia)) as (r' & E' & (_ & Hd' & _) & Hval' & _).
  exists r, r'. split; [exact E |]. split; [exact E' |].
  rewrite cmp_compare.
  set (A := signedNum r * denominator r').
  set (B := signedNum r' * denominator r).
  set (C := p * q'). set (D := p' * q).
  assert (HX : 0 < q * q') by nia.
  assert (HY : 0 < denominator r * denominator r') by nia.
  assert (HA : A * (q * q') = C * (denominator r * denominator r')).
  { subst A C. transitivity ((signedNum r * q) * (denominator r' * q')); [ring |].
    rewrite Hval. ring. }
  assert (HB : B * (q * q') = D * (denominator r * denominator r')).
  { subst B D. transitivity ((signedNum r' * q') * (denominator r * q)); [ring |].
    rewrite Hval'. ring. }
  clearbody A B C D.
  set (X := q * q') in *. set (Y := denominator r * denominator r') in *.
  clearbody X Y.
  destruct (Z.compare_spec A B), (Z.compare_spec C D); try reflexivity; nia.
Qed.

Lemma cmp_of_constructed_witness :
  exists r r',
    construct (-2) 4 = Ret r /\ construct 1 3 = Ret r' /\
    cmp r r' =
    match -2 * 3 ?= 1 * 4 with
    | Lt => -1
    | Eq => 0
    | Gt => 1
    end.
Proof. apply (cmp_of_constructed (-2) 4 1 3); lia. Defined.

(** X20: negating both operands reverses the comparison. *)
Theorem cmp_negate_reverses (a b : Rational) :
  valid a -> valid b ->
  exists na nb,
    negate a = Ret na /\ negate b = Ret nb /\ cmp na nb = cmp b a.
Proof.
  intros Ha Hb.
  destruct (negate_valid a Ha) as (na & Ea & Hca & Hda & Hsa).
  destruct (negate_valid b Hb) as (nb & Eb & Hcb & Hdb & Hsb).
  exists na, nb. split; [exact Ea |]. split; [exact Eb |].
  rewrite !cmp_compare. rewrite Hsa, Hsb, Hda, Hdb.
  rewrite !Z.mul_opp_l. rewrite Z.compare_opp. reflexivity.
Qed.

Lemma cmp_negate_reverses_witness :
  exists na nb,
    negate (mkRational 1 2 true) = Ret na /\
    negate (mkRational 1 3 false) = Ret nb /\
    cmp na nb = cmp (mkRational 1 3 false) (mkRational 1 2 true).
Proof.
  apply (cmp_negate_reverses (mkRational 1 2 true) (mkRational 1 3 false));
    unfold valid; cbn; repeat split; lia.
Defined.

(** X21: adding the same valid triple to both operands does not change the
    comparison. *)
Theorem cmp_add_invariant (fuel : nat) (a b c : Rational) :
  (3 <= fuel)%nat -> valid a -> valid b -> valid c ->
  exists ac bc,
    _add fuel a c = Ret ac /\ _add fuel b c = Ret bc /\ cmp ac bc = cmp a b.
Proof.
  intros Hf Ha Hb Hc. rewrite (enough_fuel_3 fuel Hf).
  destruct (add_value (fuel - 3) a c Ha Hc) as (ac & Eac & Hcac & Hvac).
  destruct (add_value (fuel - 3) b c Hb Hc) as (bc & Ebc & Hcbc & Hvbc).
  exists ac, bc. split; [exact Eac |]. split; [exact Ebc |].
  rewrite (cmp_Qcompare ac bc (canonical_valid _ Hcac) (canonical_valid _ Hcbc)).
  rewrite (cmp_Qcompare a b Ha Hb).
  rewrite Hvac, Hvbc, Qcompare_plus_r. reflexivity.
Qed.

Lemma cmp_add_invariant_witness :
  exists ac bc,
    _add 3 (mkRational 1 2 true) (mkRational 1 6 false) = Ret ac /\
    _add 3 (mkRational 1 3 false) (mkRational 1 6 false) = Ret bc /\
    cmp ac bc = cmp (mkRational 1 2 true) (mkRational 1 3 false).
Proof.
  apply (cmp_add_invariant 3 (mkRational 1 2 true) (mkRational 1 3 false)
           (mkRational 1 6 false));
    [lia | | |]; unfold valid; cbn; repeat split; lia.
Defined.

(** ** [toString] *)

Lemma charCode_digitChar (d : Z) : 0 <= d <= 9 -> charCode (digitChar d) - 48 = d.
Proof. intro H. each_digit d H; reflexivity. Qed.

Lemma numberOfAcc_append (s t : string) (acc : Z) :
  numberOfAcc (s ++ t) acc = numberOfAcc t (numberOfAcc s acc).
Proof.
  revert acc. induction s as [| c s IH]; intro acc; [reflexivity |].
  cbn [append numberOfAcc]. apply IH.
Qed.

(** Reading the printed digits gives the number back. *)
Lemma numberOf_digitsOf (z : Z) : 0 <= z -> numberOf (digitsOf z) = z.
Proof.
  unfold numberOf. funelim (digitsOf z); intro Hz.
  - cbn [numberOfAcc]. rewrite charCode_digitChar by lia. lia.
  - rewrite numberOfAcc_append.
    match goal with
    | IH : 0 <= z / 10 -> _ |- _ => rewrite IH by (apply Z.div_pos; lia)
    end.
    cbn [numberOfAcc].
    pose proof (Z.mod_pos_bound z 10 ltac:(lia)) as Hm.
    rewrite charCode_digitChar by lia.
    pose proof (Z.div_mod z 10 ltac:(lia)). lia.
Qed.

Lemma digitsOf_injective (u v : Z) :
  0 <= u -> 0 <= v -> digitsOf u = digitsOf v -> u = v.
Proof.
  intros Hu Hv E.
  rewrite <- (numberOf_digitsOf u Hu), <- (numberOf_digitsOf v Hv), E.
  reflexivity.
Qed.

(** Two digit strings followed by a slash and more text agree only if both
    parts agree. *)
Lemma split_at_slash (s1 s2 t1 t2 : string) :
  allDigits s1 = true -> allDigits s2 = true ->
  s1 ++ String "/" t1 = s2 ++ String "/" t2 -> s1 = s2 /\ t1 = t2.
Proof.
  revert s2. induction s1 as [| c s1 IH]; intros [| d s2] H1 H2 E;
    cbn [append allDigits] in *.
  - injection E as ->. auto.
  - injection E as <- _. discriminate H2.
  - injection E as -> _. discriminate H1.
  - injection E as -> E.
    apply andb_true_iff in H1. apply andb_true_iff in H2.
    destruct (IH s2 (proj2 H1) (proj2 H2) E) as [-> ->]. auto.
Qed.

(** X22: [toString] tells valid triples apart: two of them print alike only
    if numerator, denominator and sign flag all agree. *)
Theorem toString_injective (a b : Rational) :
  valid a -> valid b -> (toString a = toString b <-> a = b).
Proof.
  intros (Hna & Hda & _) (Hnb & Hdb & _).
  split; [| intros ->; reflexivity]. revert Hna Hda Hnb Hdb.
  intros Hna Hda Hnb Hdb.
  destruct a as [na da sa], b as [nb db sb]. unfold toString.
  cbn [numerator denominator isNegative] in *.
  rewrite !toStringZ_nonneg by lia.
  pose proof (allDigits_digitsOf na Hna) as Ha.
  pose proof (allDigits_digitsOf nb Hnb) as Hb.
  assert (Hsame : forall sg,
             digitsOf na ++ "/" ++ digitsOf da = digitsOf nb ++ "/" ++ digitsOf db ->
             mkRational na da sg = mkRational nb db sg).
  { intros sg E. cbn [append] in E.
    destruct (split_at_slash _ _ _ _ Ha Hb E) as [En Ed].
    apply digitsOf_injective in En; [| lia | lia].
    apply digitsOf_injective in Ed; [| lia | lia].
    subst. reflexivity. }
  assert (Hdiff : forall u v w : string,
             allDigits u = true -> "-" ++ w = u ++ "/" ++ v -> False).
  { intros [| c u] v w Hu E; cbn [append allDigits] in *.
    - discriminate E.
    - injection E as <- _. discriminate Hu. }
  destruct sa, sb; intro E.
  - cbn [append] in E. injection E as E. apply Hsame. exact E.
  - exfalso. cbn [append] in E. exact (Hdiff _ _ _ Hb E).
  - exfalso. cbn [append] in E. symmetry in E. exact (Hdiff _ _ _ Ha E).
  - cbn [append] in E. apply Hsame. exact E.
Qed.

Lemma toString_injective_witness :
  toString (mkRational 1 2 false) = toString (mkRational 1 2 true) <->
  mkRational 1 2 false = mkRational 1 2 true.
Proof.
  apply (toString_injective (mkRational 1 2 false) (mkRational 1 2 true));
    unfold valid; cbn; repeat split; lia.
Defined.

(** ** The shape of what [toDecimalPlaces] prints *)

Lemma endsWithDot_append (s t : string) :
  t <> EmptyString -> endsWithDot (s ++ t) = endsWithDot t.
Proof.
  intro Ht. induction s as [| c s IH]; [reflexivity |].
  cbn [append endsWithDot].
  destruct (s ++ t) eqn:E; [| exact IH].
  destruct s; [cbn in E; contradiction | discriminate E].
Qed.

Lemma endsWithDot_digit (s : string) (d : Z) :
  0 <= d <= 9 -> endsWithDot (s ++ String (digitChar d) EmptyString) = false.
Proof.
  intro H. rewrite endsWithDot_append by discriminate.
  each_digit d H; reflexivity.
Qed.

Lemma endsWithDot_digitsOf (s : string) (z : Z) :
  0 <= z -> endsWithDot (s ++ digitsOf z) = false.
Proof.
  intro Hz. rewrite digitsOf_eq.
  destruct (Z.ltb_spec z 10).
  - apply endsWithDot_digit. lia.
  - rewrite <- append_assoc. apply endsWithDot_digit.
    pose proof (Z.mod_pos_bound z 10 ltac:(lia)). lia.
Qed.

Lemma toStringZ_nonempty (z : Z) : toStringZ z <> EmptyString.
Proof.
  unfold toStringZ. destruct (z <? 0); [discriminate |].
  destruct (digitsOf_nonempty z) as (c & t & ->). discriminate.
Qed.

Lemma expansion_nonempty (x0 y : Z) (k : nat) : expansion x0 y k <> EmptyString.
Proof.
  unfold expansion. pose proof (toStringZ_nonempty (x0 / y)) as H.
  destruct (toStringZ (x0 / y)); [contradiction | discriminate].
Qed.

(** Whatever a loop body preserves holds when the loop returns, and the loop
    test fails there. *)
Lemma while_invariant {State : Type} (I : State -> Prop)
  (cond : State -> bool) (body : State -> outcome State) :
  (forall s s', I s -> cond s = true -> body s = Ret s' -> I s') ->
  forall fuel s s',
    I s -> while fuel cond body s = Ret s' -> I s' /\ cond s' = false.
Proof.
  intros Hstep fuel. induction fuel as [| fuel IH]; intros s s' HI Hrun.
  - discriminate Hrun.
  - cbn [while] in Hrun. destruct (cond s) eqn:Hc.
    + destruct (body s) as [s1 | e |] eqn:Hb; try discriminate Hrun.
      cbn [bind] in Hrun. apply (IH s1 s'); [| exact Hrun].
      apply (Hstep s s1); assumption.
    + injection Hrun as <-. auto.
Qed.

Section Settled.

Variables x0 y n : Z.

Hypothesis Hx0 : 0 < x0.
Hypothesis Hy : 0 < y.

Lemma settled_step (st st' : GenState) :
  Inv x0 y n st -> settled y n st -> loopCond n st = true ->
  loopBody y st = Ret st' -> settled y n st'.
Proof.
  intros (Hx & _ & _ & _ & k & Hsh) (S1 & S2 & S3) Hc Hbody.
  unfold loopCond in Hc. apply andb_true_iff in Hc. destruct Hc as [Hnd Hlt].
  rewrite csd_stripped in Hlt. apply Z.ltb_lt in Hlt. apply negb_true_iff in Hnd.
  destruct st as [res em dn xx ys]. unfold shape in Hsh.
  cbn [result emittedDecimalPoint done x yielded] in *. subst dn.
  unfold loopBody in Hbody. cbn [result emittedDecimalPoint done x yielded] in Hbody.
  destruct (Z.eqb_spec xx 0) as [Ex | Nx].
  - injection Hbody as <-. unfold settled.
    cbn [result emittedDecimalPoint done x yielded].
    split; [| split].
    + intro Eres. exfalso.
      destruct Hsh as [(_ & _ & E & _) | [(_ & E & _) | (_ & E & _)]].
      * lia.
      * rewrite Eres in E. symmetry in E. exact (toStringZ_nonempty _ E).
      * rewrite Eres in E. symmetry in E. exact (expansion_nonempty _ _ _ E).
    + intros _ Hge. lia.
    + exact S3.
  - destruct (Z.ltb_spec xx y) as [Hlty | Hgey].
    + destruct em.
      * destruct (Z.ltb_spec (xx * 10) y) as [Hsmall | Hbig];
          injection Hbody as <-; unfold settled;
          cbn [result emittedDecimalPoint done x yielded];
          (split; [reflexivity | split]); intros _ Hcmp; try lia;
          try (apply (endsWithDot_digit res 0); lia).
      * assert (Hcsd : countSignificantDigits
                         ((match res with EmptyString => "0" | _ => res end) ++ ".")
                       = countSignificantDigits res).
        { destruct res; [reflexivity | apply csd_append_dot]. }
        destruct (Z.ltb_spec (xx * 10) y) as [Hsmall | Hbig];
          injection Hbody as <-; unfold settled;
          cbn [result emittedDecimalPoint done x yielded];
          (split; [reflexivity | split]); intros _ Hcmp;
          rewrite ?Hcsd; try lia;
          try (apply (endsWithDot_digit _ 0); lia).
    + unfold JSBI_divide, JSBI_remainder in Hbody.
      destruct (Z.eqb_spec y 0) as [F | _]; [lia |]. cbn [bind] in Hbody.
      rewrite Z.quot_div_nonneg, Z.rem_mod_nonneg in Hbody by lia.
      injection Hbody as <-. unfold settled.
      cbn [result emittedDecimalPoint done x yielded].
      pose proof (Z.mod_pos_bound xx y Hy) as Hmod.
      pose proof (Z.div_pos xx y Hx Hy) as Hq.
      split; [reflexivity | split]; intros _ Hcmp; try lia.
      rewrite toStringZ_nonneg by exact Hq.
      apply endsWithDot_digitsOf. exact Hq.
Qed.

Lemma settled_initial : settled y n (initial x0).
Proof.
  unfold settled, initial. cbn [result emittedDecimalPoint done x].
  split; [reflexivity | split; intro F; discriminate F].
Qed.

(** With a budget of at least one digit the loop stops on the integer part
    or on an expansion with at least one fractional digit. *)
Lemma settled_final (st : GenState) :
  1 <= n ->
  Inv x0 y n st -> settled y n st -> loopCond n st = false ->
  (y <= x0 /\ result st = toStringZ (x0 / y)) \/
  exists k, result st = expansion x0 y (S k).
Proof.
  intros Hn (Hx & _ & _ & _ & k & Hsh) (S1 & S2 & S3) Hc.
  unfold loopCond in Hc. rewrite csd_stripped in Hc.
  apply andb_false_iff in Hc.
  destruct Hsh as [(_ & Eres & _) | [(_ & Eres & _ & Hge & _) | (Eem & Eres & Hxx)]].
  - exfalso. specialize (S1 Eres). rewrite S1, Eres in Hc.
    destruct Hc as [F | F]; [discriminate F |].
    apply Z.ltb_ge in F. cbn in F. lia.
  - left. auto.
  - right.
    assert (Hlt : x st < y).
    { destruct Hxx as [E | [E Hge]].
      - rewrite E. apply remainderAt_bound. exact Hy.
      - exfalso. destruct (S2 Eem Hge) as [Hd Hcnt]. rewrite Hd in Hc.
        destruct Hc as [F | F]; [discriminate F |].
        apply Z.ltb_ge in F. lia. }
    specialize (S3 Eem Hlt). destruct k as [| k].
    + exfalso. rewrite Eres in S3. unfold expansion in S3.
      cbn [fracDigits append] in S3.
      rewrite endsWithDot_append in S3 by discriminate. discriminate S3.
    + exists k. exact Eres.
Qed.

End Settled.

Lemma toDecimalPlaces_shape (fuel : nat) (r : Rational) (n : Z) :
  valid r -> numerator r <> 0 -> 1 <= n ->
  (enoughFuel (denominator r) n <= fuel)%nat ->
  exists body,
    toDecimalPlaces fuel r (Integer n)
    = Ret ((if isNegative r then "-" else EmptyString) ++ body) /\
    ((denominator r <= numerator r /\
      body = toStringZ (numerator r / denominator r)) \/
     exists k, body = expansion (numerator r) (denominator r) (S k)).
Proof.
  intros (Hnum & Hden & _) Hnz Hn Hf.
  assert (Hpos : 0 < numerator r) by lia.
  unfold toDecimalPlaces.
  destruct (Z.ltb_spec n 0) as [F | _]; [lia |].
  destruct (Z.eqb_spec (numerator r) 0) as [F | _]; [contradiction |].
  unfold nextDigitForDivision.
  destruct (generator_run (numerator r) (denominator r) n Hnum Hden fuel Hf)
    as (st & Erun & _ & _).
  fold (initial (numerator r)). rewrite Erun. cbn [bind].
  destruct (while_invariant
              (fun s => Inv (numerator r) (denominator r) n s /\
                        settled (denominator r) n s)
              (loopCond n) (loopBody (denominator r))) with
    (fuel := fuel) (s := initial (numerator r)) (s' := st)
    as [[HI HS] Hc].
  - intros s s' [HI HS] Hc Hb. split.
    + destruct (loop_step (numerator r) (denominator r) n Hnum Hden s HI Hc)
        as (s1 & E1 & HI1 & _).
      rewrite Hb in E1. injection E1 as <-. exact HI1.
    + exact (settled_step (numerator r) (denominator r) n Hpos Hden s s' HI HS Hc Hb).
  - split; [apply Inv_initial; assumption | apply settled_initial].
  - exact Erun.
  - exists (result st).
    pose proof HI as (_ & Hren & _). rewrite Hren. split; [reflexivity |].
    apply (settled_final (numerator r) (denominator r) n Hden st Hn);
      assumption.
Qed.

Lemma fracDigit_range (x0 y : Z) (i : nat) : 0 <= fracDigit x0 y i <= 9.
Proof.
  unfold fracDigit.
  pose proof (Z.mod_pos_bound (10 ^ Z.of_nat i * x0 / y) 10 ltac:(lia)). lia.
Qed.

(** X23: for a nonzero valid receiver and a budget of at least one digit,
    what follows the sign is either the integer part alone (only for values
    of at least one) or integer part, point and at least one fractional
    digit: the text is never empty and never ends in a point. *)
Theorem toDecimalPlaces_well_formed (fuel : nat) (r : Rational) (n : Z) :
  valid r -> numerator r <> 0 -> 1 <= n ->
  (enoughFuel (denominator r) n <= fuel)%nat ->
  exists body,
    toDecimalPlaces fuel r (Integer n)
    = Ret ((if isNegative r then "-" else EmptyString) ++ body) /\
    ((denominator r <= numerator r /\
      body = toStringZ (numerator r / denominator r)) \/
     exists k, body = expansion (numerator r) (denominator r) (S k)) /\
    body <> EmptyString /\ endsWithDot body = false.
Proof.
  intros Hv Hnz Hn Hf.
  destruct (toDecimalPlaces_shape fuel r n Hv Hnz Hn Hf) as (body & E & Hshape).
  exists body. split; [exact E |]. split; [exact Hshape |].
  destruct Hv as (Hnum & Hden & _).
  destruct Hshape as [[_ ->] | [k ->]].
  - split; [apply toStringZ_nonempty |].
    pose proof (Z.div_pos (numerator r) (denominator r) Hnum Hden) as Hq.
    rewrite toStringZ_nonneg by exact Hq.
    apply (endsWithDot_digitsOf EmptyString). exact Hq.
  - split; [apply expansion_nonempty |].
    rewrite expansion_succ. apply endsWithDot_digit. apply fracDigit_range.
Qed.

Lemma toDecimalPlaces_well_formed_witness :
  exists body,
    toDecimalPlaces 30 (mkRational 5 3 true) (Integer 2)
    = Ret ((if isNegative (mkRational 5 3 true) then "-" else EmptyString) ++ body) /\
    ((3 <= 5 /\ body = toStringZ (5 / 3)) \/
     exists k, body = expansion 5 3 (S k)) /\
    body <> EmptyString /\ endsWithDot body = false.
Proof.
  apply (toDecimalPlaces_well_formed 30 (mkRational 5 3 true) 2).
  - unfold valid. cbn. repeat split; lia.
  - cbn. lia.
  - lia.
  - vm_compute. lia.
Defined.

(** X24: a nonzero value below one is printed with the implicit leading
    zero: sign, then 0, the point and at least one fractional digit of the
    exact expansion. *)
Theorem toDecimalPlaces_below_one (fuel : nat) (r : Rational) (n : Z) :
  valid r -> 0 < numerator r < denominator r -> 1 <= n ->
  (enoughFuel (denominator r) n <= fuel)%nat ->
  exists k,
    toDecimalPlaces fuel r (Integer n)
    = Ret ((if isNegative r then "-" else EmptyString)
           ++ "0." ++ fracDigits (numerator r) (denominator r) (S k)).
Proof.
  intros Hv Hlt Hn Hf.
  destruct (toDecimalPlaces_shape fuel r n Hv ltac:(lia) Hn Hf)
    as (body & E & [[Hge _] | [k ->]]); [lia |].
  exists k. rewrite E. unfold expansion.
  rewrite Z.div_small by lia.
  rewrite toStringZ_nonneg, digitsOf_digit by lia. reflexivity.
Qed.

Lemma toDecimalPlaces_below_one_witness :
  exists k,
    toDecimalPlaces 40 (mkRational 1 8 false) (Integer 2)
    = Ret ((if isNegative (mkRational 1 8 false) then "-" else EmptyString)
           ++ "0." ++ fracDigits 1 8 (S k)).
Proof.
  apply (toDecimalPlaces_below_one 40 (mkRational 1 8 false) 2).
  - unfold valid. cbn. repeat split; lia.
  - cbn. lia.
  - lia.
  - vm_compute. lia.
Defined.

(** X25: an integer-valued receiver (denominator [1], nonzero numerator) is
    printed as its integer in full whatever the budget [n >= 1]; three
    rounds of the loop suffice. *)
Theorem toDecimalPlaces_integer (fuel : nat) (r : Rational) (n : Z) :
  (3 <= fuel)%nat -> 0 < numerator r -> denominator r = 1 -> 1 <= n ->
  toDecimalPlaces fuel r (Integer n)
  = Ret ((if isNegative r then "-" else EmptyString) ++ toStringZ (numerator r)).
Proof.
  intros Hf Hm Hd Hn. rewrite (enough_fuel_3 fuel Hf).
  change (3 + (fuel - 3))%nat with (S (S (S (fuel - 3)))).
  destruct r as [m d s]. cbn [numerator denominator isNegative] in *. subst d.
  unfold toDecimalPlaces. cbn [numerator denominator isNegative].
  destruct (Z.ltb_spec n 0) as [F | _]; [lia |].
  destruct (Z.eqb_spec m 0) as [F | _]; [lia |].
  unfold nextDigitForDivision.
  set (st1 := mkGen (toStringZ m) false false 0 (map parseInt (chars (toStringZ m)))).
  assert (E1 : loopCond n (mkGen EmptyString false false m []) = true).
  { unfold loopCond. cbn. apply Z.ltb_lt. lia. }
  assert (E2 : loopBody 1 (mkGen EmptyString false false m []) = Ret st1).
  { unfold loopBody. cbn [result emittedDecimalPoint done x yielded].
    destruct (Z.eqb_spec m 0) as [F | _]; [lia |].
    destruct (Z.ltb_spec m 1) as [F | _]; [lia |].
    unfold JSBI_divide, JSBI_remainder. cbn [Z.eqb bind].
    rewrite Z.quot_1_r, Z.rem_1_r. reflexivity. }
  assert (Eyield : render (yielded st1) = toStringZ m).
  { subst st1. cbn [yielded]. unfold render.
    rewrite toStringZ_nonneg by lia.
    rewrite fold_renderStep_digits by (apply allDigits_digitsOf; lia).
    reflexivity. }
  cbn [while]. rewrite E1, E2. cbn [bind].
  destruct (loopCond n st1) eqn:Hc.
  - assert (E3 : loopBody 1 st1
                 = Ret (mkGen (result st1) (emittedDecimalPoint st1) true
                          (x st1) (yielded st1))) by reflexivity.
    rewrite E3. cbn [bind].
    assert (E4 : loopCond n (mkGen (result st1) (emittedDecimalPoint st1) true
                               (x st1) (yielded st1)) = false) by reflexivity.
    rewrite E4. cbn [bind yielded]. cbn [yielded] in Eyield.
    fold st1. rewrite Eyield. reflexivity.
  - cbn [bind]. rewrite Eyield. reflexivity.
Qed.

Lemma toDecimalPlaces_integer_witness :
  toDecimalPlaces 3 (mkRational 1234 1 true) (Integer 2)
  = Ret ((if isNegative (mkRational 1234 1 true) then "-" else EmptyString)
         ++ toStringZ (numerator (mkRational 1234 1 true))).
Proof.
  apply (toDecimalPlaces_integer 3 (mkRational 1234 1 true) 2); cbn; lia.
Defined.

(** X26: negating a positive valid receiver only puts the minus sign in
    front of what [toDecimalPlaces] prints, for every budget and every run
    length. *)
Theorem toDecimalPlaces_of_negation (fuel : nat) (a : Rational) (n : Z) :
  valid a -> isNegative a = false -> numerator a <> 0 -> 0 <= n ->
  exists na,
    negate a = Ret na /\
    toDecimalPlaces fuel na (Integer n)
    = (s <- toDecimalPlaces fuel a (Integer n) ;; Ret ("-" ++ s)).
Proof.
  intros Ha Hs Hnz Hn.
  rewrite (negate_spec a Ha). eexists. split; [reflexivity |].
  unfold toDecimalPlaces. cbn [numerator denominator isNegative].
  rewrite Hs.
  destruct (Z.ltb_spec n 0) as [F | _]; [lia |].
  destruct (Z.eqb_spec (numerator a) 0) as [F | _]; [contradiction |].
  cbn [negb andb].
  destruct (nextDigitForDivision fuel (numerator a) (denominator a) n);
    reflexivity.
Qed.

Lemma toDecimalPlaces_of_negation_witness :
  exists na,
    negate (mkRational 5 3 false) = Ret na /\
    toDecimalPlaces 9 na (Integer 2)
    = (s <- toDecimalPlaces 9 (mkRational 5 3 false) (Integer 2) ;; Ret ("-" ++ s)).
Proof.
  apply (toDecimalPlaces_of_negation 9 (mkRational 5 3 false) 2).
  - unfold valid. cbn. repeat split; lia.
  - reflexivity.
  - cbn. lia.
  - lia.
Defined.

(** * Part VI: the exact output of [toDecimalPlaces] *)

Lemma expansion_extends (x0 y : Z) (j d : nat) :
  exists t, expansion x0 y (j + d) = expansion x0 y j ++ t.
Proof.
  induction d as [| d [t IH]].
  - exists EmptyString. rewrite Nat.add_0_r, append_nil_r. reflexivity.
  - rewrite Nat.add_succ_r, expansion_succ, IH, append_assoc.
    eexists. reflexivity.
Qed.

Lemma csd_expansion_mono (x0 y : Z) (j j' : nat) :
  (j <= j')%nat ->
  countSignificantDigits (expansion x0 y j)
  <= countSignificantDigits (expansion x0 y j').
Proof.
  intro H. replace j' with (j + (j' - j))%nat by lia.
  destruct (expansion_extends x0 y j (j' - j)) as [t ->].
  apply csd_append_bounds.
Qed.

Lemma csd_expansion_0 (x0 y : Z) :
  countSignificantDigits (expansion x0 y 0)
  = countSignificantDigits (toStringZ (x0 / y)).
Proof. unfold expansion. cbn [fracDigits append]. apply csd_append_dot. Qed.

Lemma remainderAt_zero_stays (x0 y : Z) (j j' : nat) :
  0 <= x0 -> 0 < y -> (j <= j')%nat ->
  remainderAt x0 y j = 0 -> remainderAt x0 y j' = 0.
Proof.
  intros Hx Hy Hle H0. induction Hle as [| m _ IH]; [exact H0 |].
  destruct (long_division_step x0 y m Hx Hy) as (_ & E & _).
  rewrite E, IH. reflexivity.
Qed.

(** [truncation] describes one string. *)
Lemma truncation_functional (x0 y n : Z) (b1 b2 : string) :
  0 <= x0 -> 0 < y ->
  truncation x0 y n b1 -> truncation x0 y n b2 -> b1 = b2.
Proof.
  intros Hx Hy H1 H2.
  assert (Hclash : forall k,
             countSignificantDigits (expansion x0 y k) < n ->
             remainderAt x0 y k <> 0 ->
             forall j b, (j <= k)%nat -> b = expansion x0 y j ->
               n <= countSignificantDigits b \/ remainderAt x0 y j = 0 -> False).
  { intros k Hc Hr j b Hle -> [Hn | H0].
    - pose proof (csd_expansion_mono x0 y j k Hle). lia.
    - apply Hr. exact (remainderAt_zero_stays x0 y j k Hx Hy Hle H0). }
  assert (Hint : forall k b,
             countSignificantDigits (expansion x0 y k) < n ->
             remainderAt x0 y k <> 0 ->
             b = toStringZ (x0 / y) ->
             n <= countSignificantDigits b \/ remainderAt x0 y 0 = 0 -> False).
  { intros k b Hc Hr -> [Hn | H0].
    - pose proof (csd_expansion_mono x0 y 0 k ltac:(lia)) as Hm.
      rewrite csd_expansion_0 in Hm. lia.
    - apply Hr. exact (remainderAt_zero_stays x0 y 0 k Hx Hy ltac:(lia) H0). }
  destruct H1 as [(_ & E1 & P1) | (k1 & E1 & C1 & R1 & P1)];
    destruct H2 as [(_ & E2 & P2) | (k2 & E2 & C2 & R2 & P2)].
  - congruence.
  - exfalso. exact (Hint k2 b1 C2 R2 E1 P1).
  - exfalso. exact (Hint k1 b2 C1 R1 E2 P2).
  - destruct (Nat.lt_trichotomy k1 k2) as [L | [-> | L]].
    + exfalso. exact (Hclash k2 C2 R2 (S k1) b1 L E1 P1).
    + congruence.
    + exfalso. exact (Hclash k1 C1 R1 (S k2) b2 L E2 P2).
Qed.

Section Tracked.

Variables x0 y n : Z.

Hypothesis Hx0 : 0 < x0.
Hypothesis Hy : 0 < y.

Lemma tracked_step (st st' : GenState) :
  Inv x0 y n st -> tracked x0 y n st -> loopCond n st = true ->
  loopBody y st = Ret st' -> tracked x0 y n st'.
Proof.
  intros (Hx & _ & _ & _ & k0 & Hsh) (T1 & T2) Hc Hbody.
  unfold loopCond in Hc. apply andb_true_iff in Hc. destruct Hc as [Hnd Hlt].
  rewrite csd_stripped in Hlt. apply Z.ltb_lt in Hlt. apply negb_true_iff in Hnd.
  destruct st as [res em dn xx ys]. unfold shape in Hsh.
  cbn [result emittedDecimalPoint done x yielded] in *. subst dn.
  unfold loopBody in Hbody. cbn [result emittedDecimalPoint done x yielded] in Hbody.
  assert (Hx0' : 0 <= x0) by lia.
  destruct (Z.eqb_spec xx 0) as [Ex | Nx].
  - (* the division is exact *)
    injection Hbody as <-. unfold tracked.
    cbn [result emittedDecimalPoint done x yielded]. split.
    + intro Eres. exfalso.
      destruct Hsh as [(_ & _ & E & _) | [(_ & E & _) | (_ & E & _)]].
      * lia.
      * rewrite Eres in E. symmetry in E. exact (toStringZ_nonempty _ E).
      * rewrite Eres in E. symmetry in E. exact (expansion_nonempty _ _ _ E).
    + intro Eem. destruct (T2 Eem) as (k & Eres & [HC | (_ & Hge & _)]); [| lia].
      exists k. split; [exact Eres |]. left. exact HC.
  - destruct (Z.ltb_spec xx y) as [Hlty | Hgey].
    + assert (Hnext : exists k,
                 (if em then res
                  else (match res with EmptyString => "0" | _ => res end) ++ ".")
                 = expansion x0 y k /\
                 xx = remainderAt x0 y k /\
                 countSignificantDigits (expansion x0 y k) < n).
      { destruct em.
        - destruct (T2 eq_refl) as (k & Eres & [(Er & _) | (_ & Hge & _)]); [| lia].
          exists k. rewrite <- Eres. auto.
        - exists O. rewrite remainderAt_0. unfold expansion.
          cbn [fracDigits append].
          destruct Hsh as [(_ & -> & -> & _) | [(_ & -> & -> & _ & _) | (F & _)]];
            try discriminate F.
          + rewrite Z.div_small, Z.mod_small by lia.
            rewrite toStringZ_nonneg, digitsOf_digit by lia.
            repeat split. cbn in Hlt |- *. exact Hlt.
          + pose proof (Z.div_pos x0 y Hx0' Hy) as Hq.
            rewrite toStringZ_nonneg in * by exact Hq.
            destruct (digitsOf_nonempty (x0 / y)) as (c & t & E).
            rewrite E in *. repeat split.
            rewrite csd_append_dot. exact Hlt. }
      destruct Hnext as (k & Eres & Er & Hcnt).
      assert (Hrk : remainderAt x0 y k <> 0) by (rewrite <- Er; exact Nx).
      destruct (long_division_step x0 y k Hx0' Hy) as (Ed & Enext & _).
      rewrite <- Er in Ed, Enext.
      destruct em.
      * destruct (Z.ltb_spec (xx * 10) y) as [Hsmall | Hbig];
          injection Hbody as <-; unfold tracked;
          cbn [result emittedDecimalPoint done x yielded];
          (split; [reflexivity |]); intros _.
        -- exists (S k). split.
           ++ rewrite expansion_succ, Ed, <- Eres.
              rewrite Z.div_small by lia. reflexivity.
           ++ left. split; [| split; [exact Hsmall |]].
              ** rewrite Enext. rewrite Z.mod_small by lia. ring.
              ** exists k. auto.
        -- exists k. split; [exact Eres |]. right.
           split; [rewrite <- Er; ring |]. auto.
      * destruct (Z.ltb_spec (xx * 10) y) as [Hsmall | Hbig];
          injection Hbody as <-; unfold tracked;
          cbn [result emittedDecimalPoint done x yielded];
          (split; [reflexivity |]); intros _.
        -- exists (S k). split.
           ++ rewrite expansion_succ, Ed, <- Eres.
              rewrite Z.div_small by lia. reflexivity.
           ++ left. split; [| split; [exact Hsmall |]].
              ** rewrite Enext. rewrite Z.mod_small by lia. ring.
              ** exists k. auto.
        -- exists k. split; [exact Eres |]. right.
           split; [rewrite <- Er; ring |]. auto.
    + (* a quotient step *)
      unfold JSBI_divide, JSBI_remainder in Hbody.
      destruct (Z.eqb_spec y 0) as [F | _]; [lia |]. cbn [bind] in Hbody.
      rewrite Z.quot_div_nonneg, Z.rem_mod_nonneg in Hbody by lia.
      injection Hbody as <-. unfold tracked.
      cbn [result emittedDecimalPoint done x yielded].
      split; [reflexivity |]. intro Eem.
      destruct (T2 Eem) as (k & Eres & [(_ & Hlty & _) | (Er & _ & _ & Hcnt & Hrk)]);
        [lia |].
      destruct (long_division_step x0 y k Hx0' Hy) as (Ed & Enext & Hd).
      rewrite <- Er in Ed, Enext, Hd.
      assert (Hq : 1 <= xx / y) by (pose proof (Z.div_str_pos xx y); lia).
      exists (S k). split.
      * rewrite expansion_succ, Ed, <- Eres.
        rewrite toStringZ_nonneg, digitsOf_digit by lia. reflexivity.
      * left. split; [symmetry; exact Enext |].
        split; [apply Z.mod_pos_bound; exact Hy |]. exists k. auto.
Qed.

Lemma tracked_initial : tracked x0 y n (initial x0).
Proof.
  unfold tracked, initial. cbn [result emittedDecimalPoint done x].
  split; [reflexivity | intro F; discriminate F].
Qed.

Lemma tracked_final (st : GenState) :
  1 <= n ->
  Inv x0 y n st -> tracked x0 y n st -> loopCond n st = false ->
  truncation x0 y n (result st).
Proof.
  intros Hn (Hx & _ & _ & Hdone & k0 & Hsh) (T1 & T2) Hc.
  unfold loopCond in Hc. rewrite csd_stripped in Hc.
  apply andb_false_iff in Hc.
  assert (Hstop : done st = true \/ n <= countSignificantDigits (result st)).
  { destruct Hc as [F | F].
    - left. apply negb_false_iff. exact F.
    - right. apply Z.ltb_ge. exact F. }
  clear Hc.
  destruct (emittedDecimalPoint st) eqn:Eem.
  - right. destruct (T2 eq_refl)
      as (k & Eres & [(Er & _ & k' & -> & Hcnt & Hrk) | (_ & _ & Hd & Hcnt & _)]).
    + exists k'. split; [exact Eres |]. split; [exact Hcnt |]. split; [exact Hrk |].
      destruct Hstop as [Hd | Hm].
      * right. rewrite <- Er. exact (Hdone Hd).
      * left. exact Hm.
    + exfalso. rewrite Eres in Hstop. destruct Hstop as [F | F].
      * rewrite Hd in F. discriminate F.
      * lia.
  - destruct Hsh as [(_ & Eres & _) | [(_ & Eres & Er & Hge & _) | (F & _)]];
      [| | rewrite Eem in F; discriminate F].
    + exfalso. specialize (T1 Eres). rewrite Eres in Hstop.
      destruct Hstop as [F | F].
      * rewrite T1 in F. discriminate F.
      * cbn in F. lia.
    + left. split; [exact Hge |]. split; [exact Eres |].
      destruct Hstop as [Hd | Hm].
      * right. rewrite remainderAt_0, <- Er. exact (Hdone Hd).
      * left. exact Hm.
Qed.

End Tracked.

Lemma toDecimalPlaces_exact (fuel : nat) (r : Rational) (n : Z) :
  valid r -> numerator r <> 0 -> 1 <= n ->
  (enoughFuel (denominator r) n <= fuel)%nat ->
  exists body,
    toDecimalPlaces fuel r (Integer n)
    = Ret ((if isNegative r then "-" else EmptyString) ++ body) /\
    truncation (numerator r) (denominator r) n body.
Proof.
  intros (Hnum & Hden & _) Hnz Hn Hf.
  assert (Hpos : 0 < numerator r) by lia.
  unfold toDecimalPlaces.
  destruct (Z.ltb_spec n 0) as [F | _]; [lia |].
  destruct (Z.eqb_spec (numerator r) 0) as [F | _]; [contradiction |].
  unfold nextDigitForDivision.
  destruct (generator_run (numerator r) (denominator r) n Hnum Hden fuel Hf)
    as (st & Erun & _ & _).
  fold (initial (numerator r)). rewrite Erun. cbn [bind].
  destruct (while_invariant
              (fun s => Inv (numerator r) (denominator r) n s /\
                        tracked (numerator r) (denominator r) n s)
              (loopCond n) (loopBody (denominator r))) with
    (fuel := fuel) (s := initial (numerator r)) (s' := st)
    as [[HI HT] Hc].
  - intros s s' [HI HT] Hc Hb. split.
    + destruct (loop_step (numerator r) (denominator r) n Hnum Hden s HI Hc)
        as (s1 & E1 & HI1 & _).
      rewrite Hb in E1. injection E1 as <-. exact HI1.
    + exact (tracked_step (numerator r) (denominator r) n Hpos Hden
               s s' HI HT Hc Hb).
  - split; [apply Inv_initial; assumption | apply tracked_initial].
  - exact Erun.
  - exists (result st).
    pose proof HI as (_ & Hren & _). rewrite Hren. split; [reflexivity |].
    apply tracked_final; assumption.
Qed.

Lemma truncation_prefix (x0 y n : Z) (body : string) :
  truncation x0 y n body -> exists k, prefix body (expansion x0 y k) = true.
Proof.
  intros [(_ & -> & _) | (k & -> & _)].
  - exists O. unfold expansion. apply prefix_append.
  - exists (S k). rewrite <- (append_nil_r (expansion x0 y (S k))) at 2.
    apply prefix_append.
Qed.

(** C9, as the code has it: [toDecimalPlaces] truncates and never rounds. For
    a valid receiver with nonzero numerator and a budget [n >= 1] the text
    after the sign is exactly the [truncation]: the integer part printed in
    full, when it meets the budget or the division is exact there; otherwise
    integer part, point and the fractional digits
    [floor(10^i * num / den) mod 10] of the exact expansion up to the first
    one at which the budget is met or the remainder is zero. That text is
    unique and is a prefix of the exact expansion. With [n = 0] only the
    sign is printed, a zero numerator prints as 0 for every valid [n], and
    5/3 to 2 digits prints as 1.6. *)
Theorem toDecimalPlaces_truncates :
  (forall fuel r n,
      valid r -> numerator r <> 0 -> 1 <= n ->
      (enoughFuel (denominator r) n <= fuel)%nat ->
      exists body,
        toDecimalPlaces fuel r (Integer n)
        = Ret ((if isNegative r then "-" else EmptyString) ++ body) /\
        truncation (numerator r) (denominator r) n body /\
        exists k, prefix body (expansion (numerator r) (denominator r) k) = true) /\
  (forall x0 y n b1 b2,
      0 <= x0 -> 0 < y ->
      truncation x0 y n b1 -> truncation x0 y n b2 -> b1 = b2) /\
  (forall fuel r,
      numerator r <> 0 ->
      toDecimalPlaces (S fuel) r (Integer 0)
      = Ret (if isNegative r then "-" else EmptyString)) /\
  (forall fuel r n,
      numerator r = 0 -> 0 <= n ->
      toDecimalPlaces fuel r (Integer n) = Ret "0") /\
  (exists r, construct 5 3 = Ret r /\
     forall fuel, toDecimalPlaces (4 + fuel) r (Integer 2) = Ret "1.6") /\
  (exists r, construct 0 1 = Ret r /\
     forall fuel n, 0 <= n -> toDecimalPlaces fuel r (Integer n) = Ret "0").
Proof.
  split; [| split; [| split; [| split; [| split]]]].
  - intros fuel r n Hv Hnz Hn Hf.
    destruct (toDecimalPlaces_exact fuel r n Hv Hnz Hn Hf) as (body & E & Ht).
    exists body. split; [exact E |]. split; [exact Ht |].
    exact (truncation_prefix _ _ _ _ Ht).
  - intros x0 y n b1 b2. apply truncation_functional.
  - intros fuel r Hnz. unfold toDecimalPlaces.
    destruct (Z.eqb_spec (numerator r) 0) as [E | _]; [contradiction |].
    cbn. destruct (isNegative r); reflexivity.
  - intros fuel r n Hz Hn. unfold toDecimalPlaces. rewrite Hz.
    destruct (Z.ltb_spec n 0); [lia | reflexivity].
  - eexists. split; [vm_compute; reflexivity |].
    intro fuel. vm_compute. reflexivity.
  - eexists. split; [vm_compute; reflexivity |].
    intros fuel n Hn. unfold toDecimalPlaces.
    destruct (Z.ltb_spec n 0); [lia | reflexivity].
Qed.

Lemma toDecimalPlaces_truncates_witness :
  exists body,
    toDecimalPlaces 30 (mkRational 1 3 true) (Integer 2)
    = Ret ((if isNegative (mkRational 1 3 true) then "-" else EmptyString) ++ body) /\
    truncation 1 3 2 body /\
    exists k, prefix body (expansion 1 3 k) = true.
Proof.
  destruct toDecimalPlaces_truncates as (H & _).
  apply (H 30%nat (mkRational 1 3 true) 2).
  - unfold valid. simpl. repeat split; lia.
  - simpl. lia.
  - lia.
  - vm_compute. lia.
Defined.

(** C9 as stated fails: 247/2 asked for one significant digit is not cut
    where the budget is met. The prefix 1 of the expansion 123.5 already
    holds one significant digit, yet all three digits of the integer part
    are printed. *)
Lemma toDecimalPlaces_truncates_counterexample :
  construct 247 2 = Ret (mkRational 247 2 false) /\
  toDecimalPlaces 2 (mkRational 247 2 false) (Integer 1) = Ret "123" /\
  prefix "1" "123" = true /\
  1 <= countSignificantDigits "1" /\
  "1" <> "123".
Proof.
  repeat split; try (vm_compute; reflexivity).
  - vm_compute. intro H. discriminate H.
  - intro H. discriminate H.
Qed.
